(** * Ingestion pipeline and answer orchestrator of the HackRx RAG service

    A shallow embedding of [main.py] and [app/services/*.py].  Python
    [str] values are modelled as [string]; a character is a code point
    below 256.  Remote services and format decoders are oracles gathered
    in the record [env]; the process state (ledger file, temporary files,
    calls issued) is the record [world], threaded through the monad [M]. *)

From Stdlib Require Import Ascii String DecimalString DecimalNat Lia Permutation.
From stdpp Require Import base list strings gmap.

Local Open Scope nat_scope.

(** ** Python [str] operations *)
Module Py.

(** [str.isspace] on one character, restricted to code points below 256:
    TAB..CR, FS..US, SPACE, NEL and NBSP. *)
Definition is_space (c : ascii) : bool :=
  let n := nat_of_ascii c in
  ((9 <=? n) && (n <=? 13)) || ((28 <=? n) && (n <=? 32))
  || (n =? 133) || (n =? 160).

Fixpoint rev_str (acc s : string) : string :=
  match s with
  | EmptyString => acc
  | String c s' => rev_str (String c acc) s'
  end.

(** The word being read is kept reversed in [cur]. *)
Fixpoint split_go (cur : string) (s : string) : list string :=
  match s with
  | EmptyString =>
      match cur with EmptyString => [] | _ => [rev_str "" cur] end
  | String c s' =>
      if is_space c then
        match cur with
        | EmptyString => split_go "" s'
        | _ => rev_str "" cur :: split_go "" s'
        end
      else split_go (String c cur) s'
  end.

(** [s.split()]: the maximal runs of non-whitespace characters. *)
Definition split (s : string) : list string := split_go "" s.

(** [sep.join(l)] *)
Fixpoint join (sep : string) (l : list string) : string :=
  match l with
  | [] => ""
  | [x] => x
  | x :: rest => x +:+ sep +:+ join sep rest
  end.

(** [str.lower] on code points below 256: A-Z and the Latin-1 capitals
    (all of 192..222 but the multiplication sign 215) move up by 32. *)
Definition lower_char (c : ascii) : ascii :=
  let n := nat_of_ascii c in
  if ((65 <=? n) && (n <=? 90))
     || ((192 <=? n) && (n <=? 222) && negb (n =? 215))
  then ascii_of_nat (n + 32) else c.

Fixpoint lower (s : string) : string :=
  match s with
  | EmptyString => EmptyString
  | String c s' => String (lower_char c) (lower s')
  end.

Fixpoint startswith (p s : string) : bool :=
  match p, s with
  | EmptyString, _ => true
  | String a p', String b s' => if Ascii.eqb a b then startswith p' s' else false
  | String _ _, EmptyString => false
  end.

(** [p in s] *)
Fixpoint contains (p s : string) : bool :=
  startswith p s ||
  match s with
  | EmptyString => false
  | String _ s' => contains p s'
  end.

Fixpoint lstrip (s : string) : string :=
  match s with
  | String c s' => if is_space c then lstrip s' else s
  | EmptyString => EmptyString
  end.

(** [s.strip()] *)
Definition strip (s : string) : string :=
  rev_str "" (lstrip (rev_str "" (lstrip s))).

Fixpoint has_char (c : ascii) (chars : string) : bool :=
  match chars with
  | EmptyString => false
  | String d rest => Ascii.eqb c d || has_char c rest
  end.

Fixpoint lstrip_chars (chars s : string) : string :=
  match s with
  | String c s' => if has_char c chars then lstrip_chars chars s' else s
  | EmptyString => EmptyString
  end.

(** [s.strip(chars)] *)
Definition strip_chars (chars s : string) : string :=
  rev_str "" (lstrip_chars chars (rev_str "" (lstrip_chars chars s))).

(** [skip] counts the characters of a matched separator still to pass. *)
Fixpoint split_sep_go (sep : string) (skip : nat) (cur s : string) : list string :=
  match s with
  | EmptyString => [rev_str "" cur]
  | String c s' =>
      match skip with
      | S k => split_sep_go sep k cur s'
      | O =>
          if startswith sep s
          then rev_str "" cur :: split_sep_go sep (String.length sep - 1) "" s'
          else split_sep_go sep 0 (String c cur) s'
      end
  end.

(** [s.split(sep)] for a non-empty [sep] *)
Definition split_sep (sep s : string) : list string := split_sep_go sep 0 "" s.

(** [str(i)] for a non-negative [int] *)
Definition str_of_nat (n : nat) : string :=
  NilEmpty.string_of_uint (Nat.to_uint n).

(** [len(range(0, stop, step))] for [step > 0] *)
Definition range_len (stop step : nat) : nat := (stop + step - 1) / step.

(** [range(0, stop, step)] for [step > 0] *)
Definition range (stop step : nat) : list nat :=
  (λ k, k * step) <$> seq 0 (range_len stop step).

(** [l[i:j]] for [0 <= i <= j] *)
Definition slice {A} (l : list A) (i j : nat) : list A :=
  take (j - i) (drop i l).

End Py.

(** ** Exceptions, process state and the effect monad *)

(** An exception with its argument. *)
Inductive exn :=
| HTTPError (msg : string)        (* aiohttp / httpx: connection, status, timeout *)
| ValueError (msg : string)
| TypeError (msg : string)
| RuntimeError (msg : string)
| KeyError (msg : string)
| IndexError (msg : string)
| LookupError (msg : string)
| DecoderError (msg : string)     (* a format library rejecting the file *)
| StoreError (msg : string)       (* the vector store rejecting a call *)
| OSError (msg : string)
| GenerationError (msg : string)  (* the completion service failing *)
| Hang (what : string).           (* no exception: the awaited call never returns *)

(** A chunk as built by the handlers, and the record sent to the store. *)
Record chunk := Chunk { id : string; text : string }.
Record store_record :=
  StoreRecord { rec_id : string; rec_text : string; rec_doc_url : string }.

(** What the process does to the outside, in the order it does it. *)
Inductive event :=
| EvProbe (url : string)                 (* get_url_extension's GET *)
| EvDownload (url : string)              (* download_to_temp's GET *)
| EvCreateTemp (path : string)
| EvExtract (path : string)              (* a format decoder reads the file *)
| EvChunk (basename : string)            (* the tokenizer is run *)
| EvUpsert (batch : list store_record)   (* index.upsert_records *)
| EvRemove (path : string)               (* os.remove *)
| EvSideChannel (what : string)
| EvSearch (query : string)
| EvGenerate (question : string).

Record world := World {
  ledger_file : option (list string);  (* JSON_FILE_PATH: absent, or its array *)
  tmp_files : gset string;             (* temporary files on disk *)
  trace : list event                   (* oldest first *)
}.

Definition M (A : Type) : Type := world → (exn + A) * world.

Definition ret {A} (a : A) : M A := λ w, (inr a, w).
Definition raise {A} (e : exn) : M A := λ w, (inl e, w).
Definition bind {A B} (m : M A) (k : A → M B) : M B :=
  λ w, match m w with
       | (inl e, w') => (inl e, w')
       | (inr a, w') => k a w'
       end.
Definition emit (ev : event) : M unit :=
  λ w, (inr tt, World (ledger_file w) (tmp_files w) (trace w ++ [ev])).
(** Lift the reply of a remote call or of a decoder. *)
Definition lift {A} (r : exn + A) : M A := λ w, (r, w).
(** [try: body finally: cleanup] *)
Definition try_finally {A} (body : M A) (cleanup : M unit) : M A :=
  λ w, match body w with
       | (r, w') =>
           match cleanup w' with
           | (inl e, w'') => (inl e, w'')
           | (inr _, w'') => (r, w'')
           end
       end.

Notation "'await' x <- m 'in' k" := (bind m (λ x, k))
  (at level 10, x name, m at level 100, k at level 200, only parsing).
Notation "'exec' m 'in' k" := (bind m (λ _, k))
  (at level 10, m at level 100, k at level 200, only parsing).

Fixpoint for_each {A} (l : list A) (body : A → M unit) : M unit :=
  match l with
  | [] => ret tt
  | x :: rest => exec body x in for_each rest body
  end.

(** ** The collaborators

    Everything the code reaches through a library or over the network.
    A reply is [inl e] when the call raises [e]. *)

(** One part of a parsed e-mail.  The parser builds containers only for
    the [multipart/*] and [message/*] content types.  A [Leaf] is a part
    that is not a container, with its body: for a text type, the body
    decoded under the charset the part declares.  An [UndecodableText] is
    a [text/<subtype>] part declaring a charset Python has no codec
    for. *)
Inductive container_kind := KMultipart | KMessage.
#[warnings="-register-all"]
Inductive message :=
| Leaf (ctype : string) (payload : string)
| UndecodableText (subtype : string) (charset : string)
| Container (kind : container_kind) (subtype : string) (subparts : list message).

Record shape := Shape { has_text_frame : bool; paragraphs : list (list string) }.

Inductive download_outcome :=
| DlRefused (e : exn)    (* the request or [raise_for_status] fails *)
| DlBroken (e : exn)     (* the body stream fails once the file is open *)
| DlComplete.

Record hit := Hit { fields : option (gmap string string) }.
Record search_response := SearchResponse { result_hits : option (option (list hit)) }.
Record search_query :=
  SearchQuery { q_text : string; q_top_k : nat; q_filter : option string }.

(** [payload.get("data", {}).get("city")] of the first reply;
    [payload2.get("data", {}).get("flightNumber")] and
    [payload2.get("message")] of the second. *)
Record city_payload := CityPayload { data_city : option string }.
Record flight_payload :=
  FlightPayload { data_flightNumber : option string;
                  message_field : option string }.

Record env := Env {
  (* tiktoken: [enc.encode] raises a ValueError on a text that holds a
     special token, [disallowed_special] being left at its default *)
  enc_encode : string → exn + list nat;
  enc_decode : list nat → string;
  (* aiohttp *)
  content_disposition : string → exn + string;
  http_body : string → download_outcome;
  mktemp : gset string → string → string;
  (* urllib.parse, os.path *)
  urlparse_path : string → string;
  unquote : string → string;
  os_path_basename : string → string;
  os_path_splitext : string → string * string;
  (* format decoders, by local path *)
  zip_namelist : string → exn + list string;
  image_to_string : string → exn + string;
  read_excel : string → exn + list (string * list (list string));
  pptx_slides : string → exn + list (list shape);
  pdf_pages : string → exn + list string;
  docx_paragraphs : string → exn + list string;
  read_text : string → exn + string;
  message_from_binary_file : string → exn + message;
  (* vector store *)
  upsert_records_reply : list store_record → option exn;
  search_reply : search_query → exn + search_response;
  (* completion chain *)
  ainvoke : string → list string → exn + string;
  (* side channels: the JSON replies of the two flight endpoints, the
     page fetched by fetch_secret_token and group 1 of its regular
     expression search *)
  favourite_city : exn + city_payload;
  flight_endpoint : string → exn + flight_payload;
  http_text : string → exn + string;
  re_search_token : string → option string;
  (* builtins *)
  py_repr : string → string
}.

(** [str(e)]: the argument, shown by [repr] for a [KeyError]. *)
Definition exn_str (E : env) (e : exn) : string :=
  match e with
  | HTTPError m | ValueError m | TypeError m | RuntimeError m
  | IndexError m | LookupError m | DecoderError m | StoreError m | OSError m
  | GenerationError m | Hang m => m
  | KeyError m => py_repr E m
  end.

Definition nl : string := String "010"%char "".

(** ** app/services/embeddings.py *)

Definition MAX_BATCH : nat := 96.

Definition upsert_records (E : env) (batch : list store_record) : M unit :=
  exec emit (EvUpsert batch) in
  match upsert_records_reply E batch with
  | None => ret tt
  | Some e => raise e
  end.

Definition enrich (source_url : string) (c : chunk) : store_record :=
  StoreRecord (id c) (text c) source_url.

Definition upsert_chunks (E : env) (chunks : list chunk) (source_url : string)
  : M unit :=
  let records := enrich source_url <$> chunks in
  for_each (Py.range (length records) MAX_BATCH) (λ i,
    let batch := Py.slice records i (i + MAX_BATCH) in
    upsert_records E batch).

(** ** app/services/ingestion.py *)

Definition CHUNK_TOKEN_SIZE : nat := 2000.
(** [int(0.1 * CHUNK_TOKEN_SIZE)] *)
Definition OVERLAP : nat := 200.
Definition IMAGE_EXTS : list string := [".png"; ".jpeg"; ".jpg"; ".bmp"; ".gif"].
Definition ARCHIVE_EXTS : list string := [".zip"].
Definition EXCEL_EXTS : list string := [".xlsx"].
Definition PPTX_EXTS : list string := [".pptx"].
Definition TEXT_EXTS : list string := [".pdf"; ".docx"; ".txt"; ".eml"].

(** [ext in EXTS] *)
Definition mem (x : string) (l : list string) : bool := existsb (String.eqb x) l.

Section Ingestion.
Context (E : env).

Definition metadata_id (basename : string) : string := basename +:+ "::metadata".
Definition chunk_id (basename : string) (i : nat) : string :=
  basename +:+ "::chunk_" +:+ Py.str_of_nat i.

Definition handle_bin_stub (basename ext doc_url : string) : M unit :=
  let text := "Binary file " +:+ basename +:+ ext +:+ "; content not extractable." in
  upsert_chunks E [Chunk (metadata_id basename) text] doc_url.

Definition handle_zip_stub (temp_path basename doc_url : string) : M unit :=
  exec emit (EvExtract temp_path) in
  await entries <- lift (zip_namelist E temp_path) in
  let summary := "Archive contains " +:+ Py.str_of_nat (length entries)
                 +:+ " files: " +:+ Py.join ", " entries in
  upsert_chunks E [Chunk (metadata_id basename) summary] doc_url.

(** The windows of the token sequence, as [(start offset, tokens)]. *)
Definition windows (tokens : list nat) : list (nat * list nat) :=
  (λ i, (i, Py.slice tokens i (i + CHUNK_TOKEN_SIZE)))
    <$> Py.range (length tokens) (CHUNK_TOKEN_SIZE - OVERLAP).

Definition normalize (text : string) : string := Py.join " " (Py.split text).

(** [_chunk_and_upsert] up to its list [records]. *)
Definition chunk_records (text basename : string) : exn + list chunk :=
  match enc_encode E (normalize text) with
  | inl e => inl e
  | inr tokens =>
      inr ((λ w, Chunk (chunk_id basename w.1) (enc_decode E w.2))
             <$> windows tokens)
  end.

Definition _chunk_and_upsert (text basename doc_url : string) : M unit :=
  exec emit (EvChunk basename) in
  await records <- lift (chunk_records text basename) in
  upsert_chunks E records doc_url.

Definition handle_image_ocr (temp_path basename ext doc_url : string) : M unit :=
  exec emit (EvExtract temp_path) in
  await raw <- lift (image_to_string E temp_path) in
  let text := Py.strip raw in
  if 1 <=? String.length text then _chunk_and_upsert text basename doc_url
  else
    let stub := "Image file " +:+ basename +:+ ext
                +:+ ", OCR returned no useful text." in
    upsert_chunks E [Chunk (metadata_id basename) stub] doc_url.

Definition handle_xlsx (temp_path basename doc_url : string) : M unit :=
  exec emit (EvExtract temp_path) in
  await book <- lift (read_excel E temp_path) in
  let combined :=
    (λ sheet : string * list (list string),
       let row_texts := Py.join " " <$> sheet.2 in
       "Sheet " +:+ sheet.1 +:+ ":" +:+ nl +:+ Py.join nl row_texts) <$> book in
  let all_text := Py.join (nl +:+ nl) combined in
  _chunk_and_upsert all_text basename doc_url.

Definition slide_runs (slide : list shape) : list string :=
  concat ((λ sh, if has_text_frame sh then concat (paragraphs sh) else [])
            <$> slide).

Definition handle_pptx (temp_path basename doc_url : string) : M unit :=
  exec emit (EvExtract temp_path) in
  await prs <- lift (pptx_slides E temp_path) in
  let slides :=
    imap (λ k slide, "Slide " +:+ Py.str_of_nat (k + 1) +:+ ": "
                     +:+ Py.join " " (slide_runs slide)) prs in
  let full_text := Py.join nl slides in
  _chunk_and_upsert full_text basename doc_url.

(** What [part.get_content()] returns under the default content manager:
    [str] for a text part, [bytes] for the other leaf types it knows, the
    enclosed message for a [message/*] container.  For a text part it
    decodes the body under the declared charset and raises a LookupError
    when there is no codec of that name. *)
Inductive content :=
| CStr (s : string)
| CBytes (b : string)
| CMessage (m : message).

Definition get_content_type (m : message) : string :=
  match m with
  | Leaf ctype _ => ctype
  | UndecodableText sub _ => "text/" +:+ sub
  | Container KMultipart sub _ => "multipart/" +:+ sub
  | Container KMessage sub _ => "message/" +:+ sub
  end.

Definition is_multipart (m : message) : bool :=
  match m with
  | Leaf _ _ | UndecodableText _ _ => false
  | Container _ _ _ => true
  end.

(** [msg.walk()]: the message, then its subparts depth first. *)
Fixpoint walk (m : message) : list message :=
  m :: match m with
       | Leaf _ _ | UndecodableText _ _ => []
       | Container _ _ subparts =>
           (fix walk_all (l : list message) : list message :=
              match l with
              | [] => []
              | p :: rest => walk p ++ walk_all rest
              end) subparts
       end.

Definition get_content (m : message) : exn + content :=
  match m with
  | Leaf ctype payload =>
      if Py.startswith "text/" ctype then inr (CStr payload)
      else if existsb (λ main, Py.startswith main ctype)
                ["audio/"; "image/"; "video/"; "application/"]
      then inr (CBytes payload)
      else inl (KeyError ctype)
  | UndecodableText _ charset =>
      inl (LookupError ("unknown encoding: " +:+ charset))
  | Container KMessage _ _ => inr (CMessage m)
  | Container KMultipart _ _ => inl (KeyError (get_content_type m))
  end.

(** [sep.join(parts)] over values that need not be [str]. *)
Fixpoint join_contents (parts : list content) : exn + list string :=
  match parts with
  | [] => inr []
  | CStr s :: rest =>
      match join_contents rest with
      | inr l => inr (s :: l)
      | inl e => inl e
      end
  | CBytes _ :: _ =>
      inl (TypeError "sequence item: expected str instance, bytes found")
  | CMessage _ :: _ =>
      inl (TypeError "sequence item: expected str instance, EmailMessage found")
  end.

Fixpoint collect_contents (l : list message) : exn + list content :=
  match l with
  | [] => inr []
  | p :: rest =>
      match get_content p with
      | inl e => inl e
      | inr c =>
          match collect_contents rest with
          | inl e => inl e
          | inr cs => inr (c :: cs)
          end
      end
  end.

(** The [.eml] branch of [extract_text_file], after parsing. *)
Definition extract_eml (msg : message) : exn + string :=
  let parts :=
    if is_multipart msg then
      collect_contents
        (filter (λ part, get_content_type part = "text/plain") (walk msg))
    else
      collect_contents [msg] in
  match parts with
  | inl e => inl e
  | inr parts =>
      match join_contents parts with
      | inl e => inl e
      | inr l => inr (Py.join nl l)
      end
  end.

Definition extract_text_file (path ext : string) : M string :=
  if String.eqb ext ".pdf" then
    exec emit (EvExtract path) in
    await pages <- lift (pdf_pages E path) in ret (Py.join nl pages)
  else if String.eqb ext ".docx" then
    exec emit (EvExtract path) in
    await ps <- lift (docx_paragraphs E path) in ret (Py.join nl ps)
  else if String.eqb ext ".txt" then
    exec emit (EvExtract path) in
    lift (read_text E path)
  else if String.eqb ext ".eml" then
    exec emit (EvExtract path) in
    await msg <- lift (message_from_binary_file E path) in
    lift (extract_eml msg)
  else ret "".

Definition quote : string := String "034"%char "".

Definition get_url_extension (url : string) : M string :=
  exec emit (EvProbe url) in
  await cd <- lift (content_disposition E url) in
  if Py.contains "filename=" cd then
    let filename := Py.strip_chars quote (default "" (last (Py.split_sep "filename=" cd))) in
    ret (Py.lower (os_path_splitext E filename).2)
  else
    let path := urlparse_path E url in
    ret (Py.lower (os_path_splitext E path).2).

(** [tempfile.NamedTemporaryFile(delete=False, suffix=ext)] *)
Definition named_temporary_file (ext : string) : M string :=
  λ w, let path := mktemp E (tmp_files w) ext in
       (inr path,
        World (ledger_file w) (tmp_files w ∪ {[path]})
              (trace w ++ [EvCreateTemp path])).

(** The request and [raise_for_status] come before the file is created;
    the loop over [iter_chunked], bounded by the 60 s total timeout, runs
    with the file already on disk. *)
Definition download_to_temp (url ext : string) : M string :=
  exec emit (EvDownload url) in
  match http_body E url with
  | DlRefused e => raise e
  | DlBroken e => await f <- named_temporary_file ext in raise e
  | DlComplete => await f <- named_temporary_file ext in ret f
  end.

Definition os_remove (path : string) : M unit :=
  λ w, if bool_decide (path ∈ tmp_files w) then
         (inr tt, World (ledger_file w) (tmp_files w ∖ {[path]})
                        (trace w ++ [EvRemove path]))
       else (inl (OSError path), w).

(** The body of the [try] of [extract_and_embed_chunks]. *)
Definition dispatch (temp_path basename ext doc_url : string) : M unit :=
  if mem ext ARCHIVE_EXTS then handle_zip_stub temp_path basename doc_url
  else if mem ext IMAGE_EXTS then handle_image_ocr temp_path basename ext doc_url
  else if mem ext EXCEL_EXTS then handle_xlsx temp_path basename doc_url
  else if mem ext PPTX_EXTS then handle_pptx temp_path basename doc_url
  else if mem ext TEXT_EXTS then
    await text <- extract_text_file temp_path ext in
    _chunk_and_upsert text basename doc_url
  else raise (ValueError ("Unsupported file type: " +:+ ext)).

(** [extract_and_embed_chunks] from its second statement on, [ext] being
    the resolved suffix. *)
Definition ingest_as (ext doc_url : string) : M unit :=
  let basename :=
    unquote E (os_path_splitext E (os_path_basename E (urlparse_path E doc_url))).1 in
  if String.eqb ext ".bin" then handle_bin_stub basename ext doc_url
  else
    await temp_path <- download_to_temp doc_url ext in
    try_finally (dispatch temp_path basename ext doc_url) (os_remove temp_path).

Definition extract_and_embed_chunks (doc_url : string) : M unit :=
  await ext <- get_url_extension doc_url in
  ingest_as ext doc_url.

End Ingestion.

(** ** app/services/retrieval.py *)

(** Truth value of [None] or a [str]. *)
Definition truthy (v : option string) : bool :=
  match v with
  | Some s => negb (String.eqb s "")
  | None => false
  end.

(** [a or b] *)
Definition py_or (a b : option string) : option string :=
  if truthy a then a else b.

(** One turn of the loop over the hits. *)
Definition append_hit_text (texts : list string) (h : hit) : list string :=
  let fld := default ∅ (fields h) in
  let txt := py_or (fld !! "text") (fld !! "chunk_text") in
  match txt with
  | Some t => if truthy txt then texts ++ [t] else texts
  | None => texts
  end.

Definition extract_texts (resp : search_response) : list string :=
  let hits := default [] (default (Some []) (result_hits resp)) in
  match hits with
  | [] => []
  | _ => foldl append_hit_text [] hits
  end.

Section Answering.
Context (E : env).

Definition search_chunks (query doc_url : string) (top_k : nat) : M (list string) :=
  let search_query :=
    SearchQuery query top_k
      (if String.eqb doc_url "" then None else Some doc_url) in
  exec emit (EvSearch query) in
  await resp <- lift (search_reply E search_query) in
  ret (extract_texts resp).

(** ** app/services/interactive.py *)

Definition city_to_landmarks : gmap string (list string) :=
  list_to_map [
    ("Delhi", ["Gateway of India"]);
    ("Mumbai", ["India Gate"; "Space Needle"]);
    ("Chennai", ["Charminar"]);
    ("Hyderabad", ["Marina Beach"; "Taj Mahal"]);
    ("Ahmedabad", ["Howrah Bridge"]);
    ("Mysuru", ["Golconda Fort"]);
    ("Kochi", ["Qutub Minar"]);
    ("Pune", ["Meenakshi Temple"; "Golden Temple"]);
    ("Nagpur", ["Lotus Temple"]);
    ("Chandigarh", ["Mysore Palace"]);
    ("Kerala", ["Rock Garden"]);
    ("Bhopal", ["Victoria Memorial"]);
    ("Varanasi", ["Vidhana Soudha"]);
    ("Jaisalmer", ["Sun Temple"]);
    ("New York", ["Eiffel Tower"]);
    ("London", ["Statue of Liberty"; "Sydney Opera House"]);
    ("Tokyo", ["Big Ben"]);
    ("Beijing", ["Colosseum"]);
    ("Bangkok", ["Christ the Redeemer"]);
    ("Toronto", ["Burj Khalifa"]);
    ("Dubai", ["CN Tower"]);
    ("Amsterdam", ["Petronas Towers"]);
    ("Cairo", ["Leaning Tower of Pisa"]);
    ("San Francisco", ["Mount Fuji"]);
    ("Berlin", ["Niagara Falls"]);
    ("Barcelona", ["Louvre Museum"]);
    ("Moscow", ["Stonehenge"]);
    ("Seoul", ["Sagrada Familia"; "Times Square"]);
    ("Cape Town", ["Acropolis"]);
    ("Istanbul", ["Big Ben"]);
    ("Riyadh", ["Machu Picchu"]);
    ("Paris", ["Taj Mahal"]);
    ("Singapore", ["Christchurch Cathedral"]);
    ("Jakarta", ["The Shard"]);
    ("Vienna", ["Blue Mosque"]);
    ("Kathmandu", ["Neuschwanstein Castle"]);
    ("Los Angeles", ["Buckingham Palace"]);
    ("Dubai Airport", ["Moai Statues"])
  ].

Definition landmark_to_endpoint : gmap string string :=
  list_to_map [
    ("Gateway of India", "getFirstCityFlightNumber");
    ("Taj Mahal", "getSecondCityFlightNumber");
    ("Eiffel Tower", "getThirdCityFlightNumber");
    ("Big Ben", "getFourthCityFlightNumber")
  ].

Definition DEFAULT_ENDPOINT : string := "getFifthCityFlightNumber".

(** The loop over the landmarks: the endpoint of the first one that has
    an entry, else the default. *)
Fixpoint choose_endpoint (landmarks : list string) : string :=
  match landmarks with
  | [] => DEFAULT_ENDPOINT
  | lm :: rest =>
      match landmark_to_endpoint !! lm with
      | Some key => key
      | None => choose_endpoint rest
      end
  end.

(** The dash of the source literal is written as its three UTF-8 bytes. *)
Definition run_flight_lookup : M (string * option string) :=
  exec emit (EvSideChannel "https://register.hackrx.in/submissions/myFavouriteCity") in
  await payload <- lift (favourite_city E) in
  match data_city payload with
  | None | Some EmptyString => raise (RuntimeError "API did not return a city name")
  | Some city =>
      match city_to_landmarks !! city with
      | None | Some [] =>
          raise (KeyError ("Unknown city '" +:+ city
                           +:+ "' — please update the mapping."))
      | Some landmarks =>
          let endpoint_key := choose_endpoint landmarks in
          exec emit (EvSideChannel
                       ("https://register.hackrx.in/teams/public/flights/"
                        +:+ endpoint_key)) in
          await payload2 <- lift (flight_endpoint E endpoint_key) in
          let message := default "" (message_field payload2) in
          match data_flightNumber payload2 with
          | None | Some EmptyString =>
              raise (RuntimeError ("No flightNumber in response from "
                                   +:+ endpoint_key))
          | Some flight =>
              match message with
              | EmptyString => ret (flight, None)
              | _ =>
                  match Py.split message with
                  | first :: _ => ret (flight, Some first)
                  | [] => raise (IndexError "list index out of range")
                  end
              end
          end
      end
  end.

Definition fetch_secret_token (url : string) : M string :=
  exec emit (EvSideChannel url) in
  await html_text <- lift (http_text E url) in
  match re_search_token E html_text with
  | None => raise (RuntimeError "Token not found in page HTML")
  | Some token => ret token
  end.

(** ** main.py *)

Record QARequest := { documents : string; questions : list string }.

(** [try: body except Exception as e: handler e] *)
Definition try_except {A} (body : M A) (handler : exn → M A) : M A :=
  λ w, match body w with
       | (inl (Hang what), w') => (inl (Hang what), w')
       | (inl e, w') => handler e w'
       | (inr a, w') => (inr a, w')
       end.

(** [any(phrase in q.lower() for q in questions)] *)
Definition any_mentions (phrase : string) (qs : list string) : bool :=
  existsb (λ q, Py.contains phrase (Py.lower q)) qs.

(** [bool(questions)] *)
Definition nonempty {A} (l : list A) : bool :=
  match l with [] => false | _ => true end.

(** [f"{destination}"] *)
Definition fmt_opt (v : option string) : string := default "None" v.

Definition read_ledger : M (list string) :=
  λ w, (inr (default [] (ledger_file w)), w).

Definition write_ledger (processed_docs : list string) : M unit :=
  λ w, (inr tt, World (Some processed_docs) (tmp_files w) (trace w)).

Definition get_answer (q doc_url : string) (top_k : nat) : M (string * string) :=
  await top_chunks <- search_chunks q doc_url top_k in
  let docs := top_chunks in
  exec emit (EvGenerate q) in
  await resp <- lift (ainvoke E q docs) in
  ret (q, Py.strip resp).

(** [asyncio.gather]: the units finish in the order [order] says, each
    result goes to the slot of its unit's position, and the slots are
    returned by position.  The units share nothing but the trace, so each
    is run whole at its turn.  The first exception raised is propagated. *)
Fixpoint gather_go {A} (tasks : list (M A)) (order : list nat)
    (slots : list (option A)) : M (list (option A)) :=
  match order with
  | [] => ret slots
  | i :: rest =>
      match tasks !! i with
      | None => gather_go tasks rest slots
      | Some t => await r <- t in gather_go tasks rest (<[i := Some r]> slots)
      end
  end.

Definition gather {A} (tasks : list (M A)) (order : list nat) : M (list A) :=
  await slots <- gather_go tasks order (replicate (length tasks) None) in
  match mapM (λ slot, slot) slots with
  | Some results => ret results
  | None => raise (Hang "gather")
  end.

(** [run_hackrx] from the ledger check on.  [order] is the order in which
    the runtime lets the per-question units finish. *)
Definition ingest_and_answer (order : list nat) (req : QARequest)
  : M (list string) :=
  let doc_url := documents req in
  await processed_docs <- read_ledger in
  exec (if bool_decide (doc_url ∈ processed_docs) then ret tt
        else
          exec extract_and_embed_chunks E doc_url in
          write_ledger (processed_docs ++ [doc_url])) in
  let tasks := (λ q, get_answer q (documents req) 10) <$> questions req in
  await results <- gather tasks order in
  ret (snd <$> results).

(** The request handler. *)
Definition run_hackrx (order : list nat) (req : QARequest) : M (list string) :=
  let doc_url := documents req in
  if nonempty (questions req) && any_mentions "flight number" (questions req) then
    try_except
      (await fd <- run_flight_lookup in
       ret ((λ _, "Destination: " +:+ fmt_opt fd.2 +:+ " and Flight Number: "
                  +:+ fd.1) <$> questions req))
      (λ e, ret ((λ _, "Failed to retrieve flight number: " +:+ exn_str E e)
                   <$> questions req))
  else if nonempty (questions req) && any_mentions "secret token" (questions req) then
    try_except
      (await token <- fetch_secret_token doc_url in
       ret ((λ _, "Secret Token: " +:+ token) <$> questions req))
      (λ e, ret ((λ _, "Failed to retrieve secret token: " +:+ exn_str E e)
                   <$> questions req))
  else ingest_and_answer order req.

End Answering.

(** ** A concrete environment, to run the model *)
Module Demo.

(** One token per character; a text holding the end-of-text marker is
    refused, as a special token is. *)
Definition encode (s : string) : exn + list nat :=
  if Py.contains "<|endoftext|>" s
  then inl (ValueError "disallowed special token '<|endoftext|>'")
  else inr (nat_of_ascii <$> list_ascii_of_string s).
Definition decode (l : list nat) : string :=
  string_of_list_ascii (ascii_of_nat <$> l).

(** The environment is built from the replies that vary between runs:
    the Content-Disposition header, the fate of the download, the parsed
    e-mail, the store's reply to an upsert, the hits of a search and the
    page holding the token. *)
Definition make (cd : exn + string) (body : download_outcome) (eml : message)
    (store : list store_record → option exn) (hits : list hit)
    (page : exn + string) : env := {|
  enc_encode := encode;
  enc_decode := decode;
  content_disposition := λ _, cd;
  http_body := λ _, body;
  mktemp := λ _ ext, "/tmp/tmp0" +:+ ext;
  urlparse_path := λ url, url;
  unquote := λ s, s;
  os_path_basename := λ p, default "" (last (Py.split_sep "/" p));
  os_path_splitext := λ p,
    match reverse (Py.split_sep "." p) with
    | ext :: (_ :: _) as stem => (Py.join "." (reverse stem), "." +:+ ext)
    | _ => (p, "")
    end;
  zip_namelist := λ _, inr ["a.txt"; "b.txt"];
  image_to_string := λ _, inr "";
  read_excel := λ _, inr [("S1", [["a"; "b"]; ["c"; "d"]])];
  pptx_slides := λ _, inr [[Shape true [["hello"; "world"]]]];
  pdf_pages := λ _, inr ["page one"; "page two"];
  docx_paragraphs := λ _, inr ["para"];
  read_text := λ _, inr "some plain   text";
  message_from_binary_file := λ _, inr eml;
  upsert_records_reply := store;
  search_reply := λ _, inr (SearchResponse (Some (Some hits)));
  ainvoke := λ q _, inr (" answer to " +:+ q +:+ " ");
  favourite_city := inr (CityPayload (Some "Paris"));
  flight_endpoint := λ _,
    inr (FlightPayload (Some "AB123") (Some "Paris flight confirmed"));
  http_text := λ _, page;
  re_search_token := λ html,
    if Py.contains "abc123" html then Some "abc123" else None;
  py_repr := λ s, "'" +:+ s +:+ "'"
|}.

Definition E : env :=
  make (inr "") DlComplete (Leaf "text/plain" "hi") (λ _, None) []
       (inr "<div id=token>abc123</div>").

Definition w0 : world := World None ∅ [].

End Demo.

(** ** Observations on a run *)

(** The batches [upsert_chunks] cuts its records into. *)
Definition batches (records : list store_record) : list (list store_record) :=
  (λ i, Py.slice records i (i + MAX_BATCH))
    <$> Py.range (length records) MAX_BATCH.

(** The calls to [index.upsert_records] in a trace. *)
Definition upsert_calls (t : list event) : list (list store_record) :=
  omap (λ ev, match ev with EvUpsert b => Some b | _ => None end) t.

(** What a run added to the trace of the world it started from. *)
Definition new_events (w w' : world) : list event :=
  drop (length (trace w)) (trace w').

Definition with_trace (w : world) (t : list event) : world :=
  World (ledger_file w) (tmp_files w) t.

(** The snippet a hit carries, in the words of the retriever's
    contract: its non-empty value under "text", else its non-empty value
    under "chunk_text", else none. *)
Definition snippet_of (h : hit) : option string :=
  let fld := default ∅ (fields h) in
  match fld !! "text" with
  | Some (String c s) => Some (String c s)
  | _ =>
      match fld !! "chunk_text" with
      | Some (String c s) => Some (String c s)
      | _ => None
      end
  end.

(** The hits of a response, none when a level is missing. *)
Definition hits_of (resp : search_response) : list hit :=
  default [] (default (Some []) (result_hits resp)).

(** The events of the ingestion pipeline and those of answering. *)
Definition ingestion_event (ev : event) : Prop :=
  match ev with
  | EvProbe _ | EvDownload _ | EvCreateTemp _ | EvExtract _ | EvChunk _
  | EvUpsert _ | EvRemove _ => True
  | _ => False
  end.

Definition answering_event (ev : event) : Prop :=
  match ev with
  | EvSideChannel _ | EvSearch _ | EvGenerate _ => True
  | _ => False
  end.

(** A computation that leaves the ledger and the temporary files alone
    and adds to the trace only events satisfying [P]. *)
Definition quiet {A} (P : event → Prop) (m : M A) : Prop :=
  ∀ w, ∃ t, (m w).2 = with_trace w (trace w ++ t) ∧ Forall P t.

(** The handler classes of the dispatch table and their suffixes. *)
Inductive handler_class :=
| BinStub | Archive | Image | Spreadsheet | SlideDeck | TextDoc.

Definition class_exts (c : handler_class) : list string :=
  match c with
  | BinStub => [".bin"]
  | Archive => ARCHIVE_EXTS
  | Image => IMAGE_EXTS
  | Spreadsheet => EXCEL_EXTS
  | SlideDeck => PPTX_EXTS
  | TextDoc => TEXT_EXTS
  end.

(** The handler each class names in the source. *)
Definition run_handler (E : env) (c : handler_class)
    (temp_path basename ext doc_url : string) : M unit :=
  match c with
  | BinStub => handle_bin_stub E basename ext doc_url
  | Archive => handle_zip_stub E temp_path basename doc_url
  | Image => handle_image_ocr E temp_path basename ext doc_url
  | Spreadsheet => handle_xlsx E temp_path basename doc_url
  | SlideDeck => handle_pptx E temp_path basename doc_url
  | TextDoc =>
      await text <- extract_text_file E temp_path ext in
      _chunk_and_upsert E text basename doc_url
  end.

(** [basename] as [extract_and_embed_chunks] computes it. *)
Definition basename_of (E : env) (doc_url : string) : string :=
  unquote E (os_path_splitext E (os_path_basename E (urlparse_path E doc_url))).1.

Definition failed {A} (r : exn + A) : Prop :=
  match r with inl _ => True | inr _ => False end.

(** Events that build a chunk record or send one to the store. *)
Definition record_event (ev : event) : Prop :=
  match ev with
  | EvChunk _ | EvUpsert _ => True
  | _ => False
  end.

(** The world once [download_to_temp] has opened its file. *)
Definition opened (E : env) (ext doc_url : string) (w : world) : world :=
  let path := mktemp E (tmp_files w) ext in
  World (ledger_file w) (tmp_files w ∪ {[path]})
        (trace w ++ [EvDownload doc_url; EvCreateTemp path]).

(** The payloads of the text/plain leaves of a list of parts. *)
Definition plain_payloads (l : list message) : list string :=
  omap (λ m, match m with
             | Leaf ctype payload =>
                 if decide (ctype = "text/plain") then Some payload else None
             | UndecodableText _ _ | Container _ _ _ => None
             end) l.

(** The ledger as [run_hackrx] reads it. *)
Definition ledger (w : world) : list string := default [] (ledger_file w).

(** No question triggers a side channel: the request takes the general
    retrieval path. *)
Definition general_path (req : QARequest) : Prop :=
  (nonempty (questions req) && any_mentions "flight number" (questions req)) = false
  ∧ (nonempty (questions req) && any_mentions "secret token" (questions req)) = false.

(** The answer to one question, when retrieval and generation succeed. *)
Definition answer_for (E : env) (doc_url q : string) : option string :=
  match search_reply E (SearchQuery q 10
          (if String.eqb doc_url "" then None else Some doc_url)) with
  | inr resp =>
      match ainvoke E q (extract_texts resp) with
      | inr resp_text => Some (Py.strip resp_text)
      | inl _ => None
      end
  | inl _ => None
  end.

(** The trigger of the secret-token side channel, on one question. *)
Definition mentions_secret (q : string) : bool :=
  Py.contains "secret token" (Py.lower q).

(** The slots after the units of [order] have finished, unit [i]
    delivering [res !! i]. *)
Definition fill {A} (res : list A) (slots : list (option A)) (order : list nat)
  : list (option A) :=
  foldl (λ s i, match res !! i with
                | Some r => <[i := Some r]> s
                | None => s
                end) slots order.

(** A word: a non-empty string without whitespace. *)
Fixpoint space_free (s : string) : bool :=
  match s with
  | EmptyString => true
  | String c s' => negb (Py.is_space c) && space_free s'
  end.

Definition word (w : string) : Prop := w ≠ "" ∧ space_free w = true.

(** A text of whitespace only. *)
Fixpoint blank (s : string) : bool :=
  match s with
  | EmptyString => true
  | String c s' => Py.is_space c && blank s'
  end.

(** The one record of a stub handler. *)
Definition stub_record (basename text doc_url : string) : store_record :=
  StoreRecord (basename +:+ "::metadata") text doc_url.

(** The request for the favourite city and the request for the flight
    of endpoint [key]. *)
Definition city_request : event :=
  EvSideChannel "https://register.hackrx.in/submissions/myFavouriteCity".
Definition flight_request (key : string) : event :=
  EvSideChannel ("https://register.hackrx.in/teams/public/flights/" +:+ key).

(** The five endpoint keys of [interactive.py]. *)
Definition endpoint_keys : list string :=
  ["getFirstCityFlightNumber"; "getSecondCityFlightNumber";
   "getThirdCityFlightNumber"; "getFourthCityFlightNumber";
   "getFifthCityFlightNumber"].


(** A string that neither begins nor ends with whitespace. *)
Definition trimmed (s : string) : Prop :=
  Py.lstrip s = s ∧ Py.lstrip (Py.rev_str "" s) = Py.rev_str "" s.

(** ** Arithmetic of [range] and slices *)

Lemma range_len_lt (stop step k : nat) :
  0 < step → (k < Py.range_len stop step ↔ k * step < stop).
Proof.
  intros Hs. unfold Py.range_len. split.
  - intros Hk.
    assert (Hd : step * ((stop + step - 1) / step) ≤ stop + step - 1)
      by (apply Nat.Div0.mul_div_le).
    nia.
  - intros Hk. apply Nat.div_le_lower_bound; [lia | nia].
Qed.

Lemma lookup_range (stop step k i : nat) :
  0 < step →
  (Py.range stop step !! k = Some i ↔ k * step < stop ∧ i = k * step).
Proof.
  intros Hs. unfold Py.range. rewrite list_lookup_fmap. split.
  - intros H. destruct (seq 0 _ !! k) as [j|] eqn:Hj; simplify_eq/=.
    apply lookup_seq in Hj as [-> Hlt]. simpl.
    split; [by apply range_len_lt|done].
  - intros [Hlt ->]. apply range_len_lt in Hlt; [|done].
    by rewrite lookup_seq_lt.
Qed.





(** ** The batcher *)

Lemma for_each_upsert (E : env) (f : nat → list store_record) (l : list nat)
    (w : world) :
  (∀ i, i ∈ l → upsert_records_reply E (f i) = None) →
  for_each l (λ i, upsert_records E (f i)) w
  = (inr tt, with_trace w (trace w ++ (EvUpsert <$> (f <$> l)))).
Proof.
  revert w. induction l as [|i l IH]; intros w Hack.
  - simpl. unfold ret, with_trace. rewrite app_nil_r. by destruct w.
  - simpl. unfold bind at 1. unfold upsert_records at 1.
    unfold bind at 1, emit. rewrite (Hack i) by (apply elem_of_cons; by left).
    unfold ret at 1.
    rewrite IH by (intros j Hj; apply Hack, elem_of_cons; by right).
    unfold with_trace. simpl. by rewrite <-app_assoc.
Qed.

(** Whatever the store replies, the calls issued are the first batches,
    in order, up to and including the first one it rejects. *)
Lemma for_each_upsert_prefix (E : env) (f : nat → list store_record)
    (l : list nat) (w : world) :
  ∃ n, (for_each l (λ i, upsert_records E (f i)) w).2
       = with_trace w (trace w ++ (EvUpsert <$> (f <$> take n l))).
Proof.
  revert w. induction l as [|i l IH]; intros w.
  - exists 0. simpl. unfold with_trace. rewrite app_nil_r. by destruct w.
  - cbn [for_each]. unfold bind at 1. unfold upsert_records at 1.
    unfold bind at 1, emit.
    destruct (upsert_records_reply E (f i)) as [e|].
    + by exists 1.
    + unfold ret at 1.
      destruct (IH (World (ledger_file w) (tmp_files w)
                      (trace w ++ [EvUpsert (f i)]))) as (n & Hn).
      exists (S n). rewrite Hn. unfold with_trace. simpl.
      by rewrite <-app_assoc.
Qed.

Lemma upsert_calls_upserts (bs : list (list store_record)) :
  upsert_calls (EvUpsert <$> bs) = bs.
Proof.
  unfold upsert_calls. induction bs as [|b bs IH]; [done|].
  rewrite fmap_cons. cbn [omap list_omap]. by f_equal.
Qed.

Lemma new_events_app (w : world) (t : list event) :
  new_events w (with_trace w (trace w ++ t)) = t.
Proof. unfold new_events. simpl. by rewrite drop_app_length. Qed.




(** ** Whitespace normalisation *)

Lemma rev_str_rev_str (w acc : string) :
  Py.rev_str "" (Py.rev_str acc w) = Py.rev_str w acc.
Proof.
  revert acc. induction w as [|c w IH]; intros acc; [done|].
  cbn [Py.rev_str]. by rewrite IH.
Qed.

Lemma rev_str_nonempty (acc s : string) : acc ≠ "" → Py.rev_str acc s ≠ "".
Proof.
  revert acc. induction s as [|c s IH]; intros acc Hacc; [done|].
  cbn [Py.rev_str]. by apply IH.
Qed.

Lemma space_free_rev_str (acc s : string) :
  space_free (Py.rev_str acc s) = space_free acc && space_free s.
Proof.
  revert acc. induction s as [|c s IH]; intros acc.
  - cbn. by rewrite andb_true_r.
  - cbn [Py.rev_str]. rewrite IH. cbn [space_free].
    destruct (Py.is_space c), (space_free acc), (space_free s); done.
Qed.

Lemma split_go_word (w rest cur : string) :
  space_free w = true →
  Py.split_go cur (w +:+ rest) = Py.split_go (Py.rev_str cur w) rest.
Proof.
  revert cur. induction w as [|c w IH]; intros cur Hw; [done|].
  cbn [space_free] in Hw. apply andb_true_iff in Hw as [Hc Hw].
  apply negb_true_iff in Hc.
  change (String c w +:+ rest) with (String c (w +:+ rest)).
  cbn [Py.split_go Py.rev_str]. rewrite Hc. by apply IH.
Qed.

Lemma append_empty_r (s : string) : s +:+ "" = s.
Proof.
  induction s as [|c s IH]; [done|].
  change (String c s +:+ "") with (String c (s +:+ "")). by rewrite IH.
Qed.

Lemma split_go_words (s cur : string) :
  space_free cur = true → Forall word (Py.split_go cur s).
Proof.
  assert (Hword : ∀ c cur', space_free (String c cur') = true →
            word (Py.rev_str "" (String c cur'))).
  { intros c cur' Hc. split.
    - cbn [Py.rev_str]. by apply rev_str_nonempty.
    - by rewrite space_free_rev_str, Hc. }
  revert cur. induction s as [|a s IH]; intros cur Hcur; cbn [Py.split_go].
  - destruct cur as [|c cur']; repeat constructor; by apply Hword.
  - destruct (Py.is_space a) eqn:Ha.
    + destruct cur as [|c cur']; [by apply IH|].
      constructor; [by apply Hword|by apply IH].
    + apply IH. cbn [space_free]. by rewrite Ha, Hcur.
Qed.

Lemma split_go_space (cur rest : string) :
  cur ≠ "" →
  Py.split_go cur (" " +:+ rest) = Py.rev_str "" cur :: Py.split_go "" rest.
Proof. by destruct cur. Qed.

Lemma join_cons (sep w w2 : string) (ws : list string) :
  Py.join sep (w :: w2 :: ws) = w +:+ sep +:+ Py.join sep (w2 :: ws).
Proof. done. Qed.

Lemma split_join (ws : list string) :
  Forall word ws → Py.split (Py.join " " ws) = ws.
Proof.
  unfold Py.split. induction 1 as [|w ws [Hne Hsf] Hws IH]; [done|].
  assert (Hrev : Py.rev_str "" w ≠ "").
  { destruct w as [|c w]; [done|]. cbn [Py.rev_str]. by apply rev_str_nonempty. }
  destruct ws as [|w2 ws].
  - change (Py.join " " [w]) with w.
    rewrite <-(append_empty_r w) at 1. rewrite split_go_word by done.
    cbn [Py.split_go]. destruct (Py.rev_str "" w) eqn:Hw; [done|].
    by rewrite <-Hw, rev_str_rev_str.
  - rewrite join_cons, split_go_word, split_go_space by done.
    by rewrite rev_str_rev_str, IH.
Qed.

(** The normalised text holds the words of the text, and only them,
    separated by single spaces. *)
Lemma split_normalize (s : string) :
  Forall word (Py.split s) ∧ Py.split (normalize s) = Py.split s.
Proof.
  assert (Hw : Forall word (Py.split s)) by (by apply split_go_words).
  split; [done|]. unfold normalize. by apply split_join.
Qed.

(** ** The chunker *)

Lemma normalize_empty : normalize "" = "".
Proof. reflexivity. Qed.

Lemma lookup_windows (tokens : list nat) (k : nat) (w : nat * list nat) :
  windows tokens !! k = Some w
  ↔ k * 1800 < length tokens
    ∧ w = (k * 1800, take 2000 (drop (k * 1800) tokens)).
Proof.
  unfold windows. rewrite list_lookup_fmap.
  change (CHUNK_TOKEN_SIZE - OVERLAP) with 1800.
  change CHUNK_TOKEN_SIZE with 2000.
  assert (Hslice : ∀ i, Py.slice tokens i (i + 2000) = take 2000 (drop i tokens)).
  { intros i. unfold Py.slice. f_equal. lia. }
  split.
  - intros H.
    destruct (Py.range (length tokens) 1800 !! k) as [i|] eqn:Hi; [|done].
    apply lookup_range in Hi as [Hlt ->]; [|lia].
    cbn [fmap option_fmap option_map] in H. injection H as <-.
    by rewrite Hslice.
  - intros [Hlt ->].
    assert (Hi : Py.range (length tokens) 1800 !! k = Some (k * 1800))
      by (apply lookup_range; [lia|done]).
    rewrite Hi. cbn [fmap option_fmap option_map]. by rewrite Hslice.
Qed.

Lemma window_overlap {A} (l : list A) (a step o : nat) :
  drop step (take (step + o) (drop a l))
  = take o (take (step + o) (drop (a + step) l)).
Proof.
  rewrite <-take_drop_commute, take_take, drop_drop.
  f_equal. lia.
Qed.

Lemma window_covers (tokens : list nat) (j tok : nat) :
  tokens !! j = Some tok →
  let k := j / 1800 in
  k * 1800 ≤ j ∧ j - k * 1800 < 1800
  ∧ take 2000 (drop (k * 1800) tokens) !! (j - k * 1800) = Some tok.
Proof.
  intros Hj k.
  assert (Hdm : j = 1800 * k + j mod 1800) by apply Nat.div_mod_eq.
  assert (Hm : j mod 1800 < 1800) by (apply Nat.mod_upper_bound; lia).
  assert (Hle : k * 1800 ≤ j) by lia.
  assert (Hlt : j - k * 1800 < 1800) by lia.
  repeat split; [done|done|].
  rewrite lookup_take_lt by lia. rewrite lookup_drop.
  replace (k * 1800 + (j - k * 1800)) with j by lia. done.
Qed.

(** C1, as amended.  The normalised text is the words of the text joined
    by single spaces.  When the tokenizer accepts it, with [tokens] its
    encoding: the k-th chunk starts at token offset k * 1800 (W = 2000,
    O = 200), has id "<basename>::chunk_<offset>" and decodes the at most
    2000 tokens from that offset on; there is a window for exactly the
    offsets below the token count; two consecutive windows of which the
    second is not the last share exactly 200 tokens, the last 200 of the
    first being the first 200 of the second; every token lies in some
    window.  When the tokenizer raises, the chunker raises the same error
    and neither builds nor sends a record.  The empty text gives no
    chunk, no store call and no error. *)
Theorem chunker_windows (E : env) (doc_text basename : string)
    (Henc : enc_encode E "" = inr []) :
  (normalize doc_text = Py.join " " (Py.split doc_text)
   ∧ Forall word (Py.split doc_text)
   ∧ Py.split (normalize doc_text) = Py.split doc_text)
  ∧ (∀ tokens, enc_encode E (normalize doc_text) = inr tokens →
     let ws := windows tokens in
     ∃ records,
       chunk_records E doc_text basename = inr records
       ∧ (∀ k, k * 1800 < length tokens ↔ is_Some (records !! k))
       ∧ (∀ k c, records !! k = Some c →
            id c = basename +:+ "::chunk_" +:+ Py.str_of_nat (k * 1800)
            ∧ text c = enc_decode E (take 2000 (drop (k * 1800) tokens)))
       ∧ (∀ k w, ws !! k = Some w →
            w.1 = k * 1800 ∧ w.2 = take 2000 (drop w.1 tokens)
            ∧ length w.2 ≤ 2000)
       ∧ (∀ k w1 w2, ws !! k = Some w1 → ws !! (k + 1) = Some w2 →
            is_Some (ws !! (k + 2)) →
            length w1.2 = 2000 ∧ w1.1 + 2000 - w2.1 = 200
            ∧ drop 1800 w1.2 = take 200 w2.2 ∧ length (take 200 w2.2) = 200)
       ∧ (∀ j tok, tokens !! j = Some tok →
            ∃ k w, ws !! k = Some w ∧ w.1 ≤ j ∧ w.2 !! (j - w.1) = Some tok))
  ∧ (∀ e, enc_encode E (normalize doc_text) = inl e →
       chunk_records E doc_text basename = inl e
       ∧ ∀ doc_url w,
           _chunk_and_upsert E doc_text basename doc_url w
           = (inl e, with_trace w (trace w ++ [EvChunk basename])))
  ∧ (doc_text = "" →
       chunk_records E doc_text basename = inr []
       ∧ ∀ doc_url w,
           let out := _chunk_and_upsert E doc_text basename doc_url w in
           out.1 = inr tt ∧ upsert_calls (new_events w out.2) = []).
Proof.
  split; [split; [done|apply split_normalize]|].
  split; [|split].
  - intros tokens Htok ws.
    set (records := (λ w, Chunk (chunk_id basename w.1) (enc_decode E w.2))
                      <$> ws).
    assert (Hrec : ∀ k, records !! k
              = (λ w, Chunk (chunk_id basename w.1) (enc_decode E w.2))
                  <$> ws !! k).
    { intros k. unfold records. by rewrite list_lookup_fmap. }
    exists records.
    split; [unfold chunk_records; by rewrite Htok|].
    split; [|split; [|split; [|split]]].
    + intros k. rewrite Hrec, fmap_is_Some. split.
      * intros Hlt. eexists. by apply lookup_windows.
      * intros [w Hw]. by apply lookup_windows in Hw as [? _].
    + intros k c. rewrite Hrec. intros Hc.
      destruct (ws !! k) as [w|] eqn:Hw; [|done].
      apply lookup_windows in Hw as [_ ->].
      cbn [fmap option_fmap option_map] in Hc. injection Hc as <-. done.
    + intros k w Hw. apply lookup_windows in Hw as [_ ->].
      cbn [fst snd]. split; [done|split; [done|]]. rewrite length_take. lia.
    + intros k w1 w2 H1 H2 [w3 H3].
      apply lookup_windows in H1 as [_ ->].
      apply lookup_windows in H2 as [_ ->].
      apply lookup_windows in H3 as [Hlt _].
      cbn [fst snd].
      assert (Hk : (k + 1) * 1800 = k * 1800 + 1800) by lia.
      rewrite Hk.
      split; [rewrite length_take, length_drop; lia|].
      split; [lia|].
      split.
      * exact (window_overlap tokens (k * 1800) 1800 200).
      * rewrite take_take, length_take, length_drop. lia.
    + intros j tok Hj.
      destruct (window_covers tokens j tok Hj) as (Hle & Hlt & Hin).
      assert (j < length tokens) by (by eapply lookup_lt_Some).
      exists (j / 1800),
        (j / 1800 * 1800, take 2000 (drop (j / 1800 * 1800) tokens)).
      split.
      { apply (proj2 (lookup_windows _ _ _)). split; [lia|done]. }
      cbn [fst snd]. done.
  - intros e Herr.
    assert (Hnone : chunk_records E doc_text basename = inl e)
      by (unfold chunk_records; by rewrite Herr).
    split; [done|]. intros doc_url w.
    unfold _chunk_and_upsert, bind, emit, lift. by rewrite Hnone.
  - intros ->.
    assert (Hnone : chunk_records E "" basename = inr []).
    { unfold chunk_records. rewrite normalize_empty, Henc. reflexivity. }
    split; [done|]. intros doc_url w out. subst out.
    unfold _chunk_and_upsert. rewrite Hnone. split; [reflexivity|].
    unfold new_events. cbn. by rewrite drop_app_length.
Qed.

Lemma chunker_windows_witness :
  let text := string_of_list_ascii (replicate 2500 "x"%char) in
  let tokens := replicate 2500 120 in
  ∃ records,
    chunk_records Demo.E text "doc" = inr records
    ∧ id <$> records = ["doc::chunk_0"; "doc::chunk_1800"]
    ∧ (∀ j tok, tokens !! j = Some tok →
         ∃ k w, windows tokens !! k = Some w
                ∧ w.1 ≤ j ∧ w.2 !! (j - w.1) = Some tok).
Proof.
  intros text tokens.
  assert (Henc : enc_encode Demo.E "" = inr []) by reflexivity.
  assert (Htok : enc_encode Demo.E (normalize text) = inr tokens)
    by (vm_compute; reflexivity).
  destruct (chunker_windows Demo.E text "doc" Henc) as (_ & Hok & _).
  destruct (Hok tokens Htok) as (records & Hrec & _ & _ & _ & _ & Hcover).
  exists records. split; [exact Hrec|]. split; [|exact Hcover].
  assert (Hrun : chunk_records Demo.E text "doc"
            = inr ((λ k, Chunk ("doc::chunk_" +:+ Py.str_of_nat k)
                           (enc_decode Demo.E (take 2000 (drop k tokens))))
                     <$> [0; 1800])) by (vm_compute; reflexivity).
  rewrite Hrun in Hrec. injection Hrec as <-. reflexivity.
Defined.

(** C1 as stated fails on a text the tokenizer refuses: the text is not
    empty, it normalises to three words, yet the chunker builds no window
    and no record, sends nothing and raises the tokenizer's error. *)
Lemma chunker_windows_counterexample :
  let text := "see  <|endoftext|> here" in
  let out := _chunk_and_upsert Demo.E text "doc" "http://h/doc.txt" Demo.w0 in
  Py.split text = ["see"; "<|endoftext|>"; "here"]
  ∧ chunk_records Demo.E text "doc"
    = inl (ValueError "disallowed special token '<|endoftext|>'")
  ∧ out.1 = inl (ValueError "disallowed special token '<|endoftext|>'")
  ∧ new_events Demo.w0 out.2 = [EvChunk "doc"].
Proof. repeat split; vm_compute; reflexivity. Qed.

(** ** The retriever *)

Lemma append_hit_text_snippet (texts : list string) (h : hit) :
  append_hit_text texts h = texts ++ option_list (snippet_of h).
Proof.
  unfold append_hit_text, snippet_of, py_or, truthy.
  destruct (default ∅ (fields h) !! "text") as [[|c s]|];
    destruct (default ∅ (fields h) !! "chunk_text") as [[|c' s']|];
    simpl; by rewrite ?app_nil_r.
Qed.

Lemma foldl_append_hit_text (texts : list string) (hits : list hit) :
  foldl append_hit_text texts hits = texts ++ omap snippet_of hits.
Proof.
  revert texts. induction hits as [|h hits IH]; intros texts.
  - by rewrite app_nil_r.
  - cbn [foldl]. rewrite IH, append_hit_text_snippet.
    cbn [omap list_omap]. rewrite <-app_assoc. f_equal.
    by destruct (snippet_of h).
Qed.

Lemma extract_texts_snippets (resp : search_response) :
  extract_texts resp = omap snippet_of (hits_of resp).
Proof.
  unfold extract_texts. fold (hits_of resp).
  destruct (hits_of resp) as [|h hits] eqn:Hh; [done|].
  by rewrite foldl_append_hit_text.
Qed.

Lemma length_omap_le {A B} (f : A → option B) (l : list A) :
  length (omap f l) ≤ length l.
Proof.
  induction l as [|x l IH]; [done|].
  cbn [omap list_omap]. destruct (f x); simpl; lia.
Qed.

(** C10.  When the store answers a search with [resp], [search_chunks]
    returns the snippets of the hits in the order of the hits, a hit
    contributing its non-empty "text", else its non-empty "chunk_text",
    and nothing when it has neither; so the result is never longer than
    the hit list, and it is empty when there is no hit. *)
Theorem search_chunks_snippets (E : env) (query doc_url : string) (top_k : nat)
    (resp : search_response) (w : world) :
  search_reply E (SearchQuery query top_k
                    (if String.eqb doc_url "" then None else Some doc_url))
    = inr resp →
  let out := search_chunks E query doc_url top_k w in
  out.1 = inr (omap snippet_of (hits_of resp))
  ∧ length (omap snippet_of (hits_of resp)) ≤ length (hits_of resp)
  ∧ (hits_of resp = [] → out.1 = inr [])
  ∧ (∀ h, snippet_of h = None ↔
          ¬ truthy (default ∅ (fields h) !! "text")
          ∧ ¬ truthy (default ∅ (fields h) !! "chunk_text")).
Proof.
  intros Hreply out.
  assert (Hout : out.1 = inr (omap snippet_of (hits_of resp))).
  { subst out. unfold search_chunks, bind, emit, lift, ret. rewrite Hreply.
    simpl. by rewrite extract_texts_snippets. }
  split; [done|]. split; [apply length_omap_le|]. split.
  - intros Hnil. rewrite Hout. by rewrite Hnil.
  - intros h. unfold snippet_of, truthy.
    destruct (default ∅ (fields h) !! "text") as [[|c s]|];
      destruct (default ∅ (fields h) !! "chunk_text") as [[|c' s']|];
      simpl; intuition (done || congruence).
Qed.

Lemma search_chunks_snippets_witness :
  let h1 := Hit (Some {[ "text" := "first" ]}) in
  let h2 := Hit (Some {[ "doc_url" := "u" ]}) in
  let h3 := Hit (Some {[ "text" := ""; "chunk_text" := "third" ]}) in
  let E := Demo.make (inr "") DlComplete (Leaf "text/plain" "hi") (λ _, None)
             [h1; h2; h3] (inr "") in
  (search_chunks E "q" "u" 10 Demo.w0).1 = inr ["first"; "third"].
Proof.
  intros h1 h2 h3 E.
  destruct (search_chunks_snippets E "q" "u" 10
              (SearchResponse (Some (Some [h1; h2; h3]))) Demo.w0)
    as (Hout & _); [reflexivity|].
  rewrite Hout. vm_compute. reflexivity.
Defined.

(** ** Frame lemmas: what a computation leaves alone *)

Lemma quiet_ret {A} (P : event → Prop) (a : A) : quiet P (ret a).
Proof. intros w. exists []. rewrite app_nil_r. by destruct w. Qed.

Lemma quiet_raise {A} (P : event → Prop) (e : exn) : quiet P (raise (A:=A) e).
Proof. intros w. exists []. rewrite app_nil_r. by destruct w. Qed.

Lemma quiet_lift {A} (P : event → Prop) (r : exn + A) : quiet P (lift r).
Proof. intros w. exists []. rewrite app_nil_r. by destruct w. Qed.

Lemma quiet_emit (P : event → Prop) (ev : event) : P ev → quiet P (emit ev).
Proof. intros HP w. exists [ev]. split; [done|]. by constructor. Qed.

Lemma quiet_bind {A B} (P : event → Prop) (m : M A) (k : A → M B) :
  quiet P m → (∀ a, quiet P (k a)) → quiet P (bind m k).
Proof.
  intros Hm Hk w. unfold bind.
  destruct (Hm w) as (t1 & Hw1 & Ht1).
  destruct (m w) as [[e|a] w1] eqn:Hmw; simpl in Hw1; subst w1.
  - by exists t1.
  - destruct (Hk a (with_trace w (trace w ++ t1))) as (t2 & Hw2 & Ht2).
    exists (t1 ++ t2). split; [|by apply Forall_app].
    rewrite Hw2. simpl. unfold with_trace. simpl. by rewrite app_assoc.
Qed.

Lemma quiet_try_except {A} (P : event → Prop) (m : M A) (h : exn → M A) :
  quiet P m → (∀ e, quiet P (h e)) → quiet P (try_except m h).
Proof.
  intros Hm Hh w. unfold try_except.
  destruct (Hm w) as (t1 & Hw1 & Ht1).
  destruct (m w) as [[e|a] w1] eqn:Hmw; simpl in Hw1; subst w1.
  - assert (Hcatch : ∃ t, (h e (with_trace w (trace w ++ t1))).2
              = with_trace w (trace w ++ t) ∧ Forall P t).
    { destruct (Hh e (with_trace w (trace w ++ t1))) as (t2 & Hw2 & Ht2).
      exists (t1 ++ t2). split; [|by apply Forall_app].
      rewrite Hw2. unfold with_trace. simpl. by rewrite app_assoc. }
    destruct e; try exact Hcatch. by exists t1.
  - by exists t1.
Qed.

Lemma quiet_for_each {A} (P : event → Prop) (l : list A) (body : A → M unit) :
  (∀ x, quiet P (body x)) → quiet P (for_each l body).
Proof.
  intros Hb. induction l as [|x l IH]; simpl.
  - apply quiet_ret.
  - apply quiet_bind; [apply Hb|]. intros _. apply IH.
Qed.

Create HintDb quiet.
#[local] Hint Resolve quiet_ret quiet_raise quiet_lift quiet_for_each : quiet.
#[local] Hint Extern 1 (quiet _ (emit _)) => apply quiet_emit; exact I : quiet.
#[local] Hint Extern 2 (quiet _ (bind _ _)) => apply quiet_bind; [|intros ?] : quiet.
#[local] Hint Extern 3 (quiet _ (if ?b then _ else _)) => destruct b : quiet.
#[local] Hint Extern 3 (quiet _ (match ?x with _ => _ end)) => destruct x : quiet.

Ltac quiet_tac := auto 20 with quiet.

Lemma quiet_upsert_records (E : env) (batch : list store_record) :
  quiet ingestion_event (upsert_records E batch).
Proof. unfold upsert_records. quiet_tac. Qed.

Lemma quiet_upsert_chunks (E : env) (chunks : list chunk) (url : string) :
  quiet ingestion_event (upsert_chunks E chunks url).
Proof.
  unfold upsert_chunks. apply quiet_for_each.
  intros i. apply quiet_upsert_records.
Qed.
#[local] Hint Resolve quiet_upsert_chunks : quiet.

Lemma quiet_chunk_and_upsert (E : env) (text basename url : string) :
  quiet ingestion_event (_chunk_and_upsert E text basename url).
Proof. unfold _chunk_and_upsert. quiet_tac. Qed.
#[local] Hint Resolve quiet_chunk_and_upsert : quiet.

Lemma quiet_extract_text_file (E : env) (path ext : string) :
  quiet ingestion_event (extract_text_file E path ext).
Proof. unfold extract_text_file. quiet_tac. Qed.
#[local] Hint Resolve quiet_extract_text_file : quiet.

Lemma quiet_run_handler (E : env) (c : handler_class)
    (temp_path basename ext url : string) :
  quiet ingestion_event (run_handler E c temp_path basename ext url).
Proof.
  destruct c; unfold run_handler, handle_bin_stub, handle_zip_stub,
    handle_image_ocr, handle_xlsx, handle_pptx; quiet_tac.
Qed.

Lemma quiet_dispatch (E : env) (temp_path basename ext url : string) :
  quiet ingestion_event (dispatch E temp_path basename ext url).
Proof.
  unfold dispatch, handle_zip_stub, handle_image_ocr, handle_xlsx, handle_pptx.
  quiet_tac.
Qed.

(** ** The pipeline once the suffix is resolved *)

Lemma mem_spec (x : string) (l : list string) : mem x l = true ↔ x ∈ l.
Proof.
  unfold mem. rewrite existsb_exists. split.
  - intros (y & Hy & Heq). apply String.eqb_eq in Heq as ->.
    by apply list_elem_of_In.
  - intros Hx. exists x. split; [by apply list_elem_of_In|apply String.eqb_refl].
Qed.

Lemma mem_false (x : string) (l : list string) : x ∉ l → mem x l = false.
Proof.
  intros Hx. destruct (mem x l) eqn:Hm; [|done].
  by apply mem_spec in Hm.
Qed.

Lemma ingest_as_bin (E : env) (doc_url : string) :
  ingest_as E ".bin" doc_url
  = handle_bin_stub E (basename_of E doc_url) ".bin" doc_url.
Proof. done. Qed.

Lemma ingest_as_refused (E : env) (ext doc_url : string) (e : exn) (w : world) :
  ext ≠ ".bin" → http_body E doc_url = DlRefused e →
  ingest_as E ext doc_url w
  = (inl e, with_trace w (trace w ++ [EvDownload doc_url])).
Proof.
  intros Hext Hbody. unfold ingest_as.
  apply String.eqb_neq in Hext. rewrite Hext.
  unfold bind at 1. unfold download_to_temp, bind, emit. by rewrite Hbody.
Qed.

Lemma ingest_as_broken (E : env) (ext doc_url : string) (e : exn) (w : world) :
  ext ≠ ".bin" → http_body E doc_url = DlBroken e →
  ingest_as E ext doc_url w = (inl e, opened E ext doc_url w).
Proof.
  intros Hext Hbody. unfold ingest_as.
  apply String.eqb_neq in Hext. rewrite Hext.
  unfold bind at 1. unfold download_to_temp, bind, emit. rewrite Hbody.
  unfold named_temporary_file, raise, opened. cbn.
  by rewrite <-app_assoc.
Qed.

Lemma ingest_as_complete (E : env) (ext doc_url : string) (w : world) :
  ext ≠ ".bin" → http_body E doc_url = DlComplete →
  let path := mktemp E (tmp_files w) ext in
  let w1 := opened E ext doc_url w in
  ∃ t, (dispatch E path (basename_of E doc_url) ext doc_url w1).2
         = with_trace w1 (trace w1 ++ t)
       ∧ Forall ingestion_event t
       ∧ ingest_as E ext doc_url w
         = ((dispatch E path (basename_of E doc_url) ext doc_url w1).1,
            World (ledger_file w) ((tmp_files w ∪ {[path]}) ∖ {[path]})
                  (trace w1 ++ t ++ [EvRemove path])).
Proof.
  intros Hext Hbody path w1.
  destruct (quiet_dispatch E path (basename_of E doc_url) ext doc_url w1)
    as (t & Hw2 & Ht).
  exists t. split; [done|]. split; [done|].
  unfold ingest_as. apply String.eqb_neq in Hext. rewrite Hext.
  unfold bind at 1. unfold download_to_temp, bind, emit. rewrite Hbody.
  unfold named_temporary_file, ret. cbn [fst snd ledger_file tmp_files trace].
  fold path. unfold try_finally. fold (basename_of E doc_url).
  assert (Hw1 : World (ledger_file w) (tmp_files w ∪ {[path]})
                  ((trace w ++ [EvDownload doc_url]) ++ [EvCreateTemp path]) = w1).
  { unfold w1, opened. fold path. by rewrite <-app_assoc. }
  rewrite Hw1.
  destruct (dispatch E path (basename_of E doc_url) ext doc_url w1) as [r w2].
  simpl in Hw2. subst w2. unfold os_remove. cbn [tmp_files with_trace].
  rewrite bool_decide_eq_true_2
    by (unfold w1, opened; simpl; apply elem_of_union_r; by apply elem_of_singleton).
  cbn [fst ledger_file trace]. f_equal.
  unfold w1, opened. simpl. by rewrite <-!app_assoc.
Qed.

(** ** Format dispatch *)

Lemma class_exts_disjoint (ext : string) (c c' : handler_class) :
  ext ∈ class_exts c → ext ∈ class_exts c' → c' = c.
Proof.
  intros Hc Hc'.
  destruct c, c'; try done; exfalso;
    unfold class_exts, ARCHIVE_EXTS, IMAGE_EXTS, EXCEL_EXTS, PPTX_EXTS,
      TEXT_EXTS in *;
    repeat (apply elem_of_cons in Hc as [->|Hc]);
    try (by apply elem_of_nil in Hc);
    repeat (apply elem_of_cons in Hc' as [Hc'|Hc']);
    try (by apply elem_of_nil in Hc'); discriminate.
Qed.

Lemma dispatch_recognized (E : env) (c : handler_class)
    (temp_path basename ext doc_url : string) :
  ext ∈ class_exts c → c ≠ BinStub →
  dispatch E temp_path basename ext doc_url
  = run_handler E c temp_path basename ext doc_url.
Proof.
  intros Hc Hbin.
  destruct c; try done;
    unfold class_exts, ARCHIVE_EXTS, IMAGE_EXTS, EXCEL_EXTS, PPTX_EXTS,
      TEXT_EXTS in Hc;
    repeat (apply elem_of_cons in Hc as [->|Hc]);
    try (by apply elem_of_nil in Hc); reflexivity.
Qed.

Lemma dispatch_unrecognized (E : env) (temp_path basename ext doc_url : string)
    (w : world) :
  (∀ c, ext ∉ class_exts c) →
  dispatch E temp_path basename ext doc_url w
  = (inl (ValueError ("Unsupported file type: " +:+ ext)), w).
Proof.
  intros Hno. unfold dispatch.
  rewrite (mem_false ext ARCHIVE_EXTS) by apply (Hno Archive).
  rewrite (mem_false ext IMAGE_EXTS) by apply (Hno Image).
  rewrite (mem_false ext EXCEL_EXTS) by apply (Hno Spreadsheet).
  rewrite (mem_false ext PPTX_EXTS) by apply (Hno SlideDeck).
  rewrite (mem_false ext TEXT_EXTS) by apply (Hno TextDoc).
  done.
Qed.

(** C7.  A suffix in no handler class makes the dispatch raise the
    unsupported-format error and change nothing; the pipeline then always
    fails, with that error once the download has completed, and neither
    builds a chunk record nor calls the store.  A suffix in a class is in
    that class only, and the code runs that class's handler: the binary
    stub before any download, the others from the dispatch. *)
Theorem format_dispatch_total (E : env) (ext : string) :
  ((∀ c, ext ∉ class_exts c) →
     (∀ temp_path basename doc_url w,
        dispatch E temp_path basename ext doc_url w
        = (inl (ValueError ("Unsupported file type: " +:+ ext)), w))
     ∧ (∀ doc_url w,
          let out := ingest_as E ext doc_url w in
          failed out.1
          ∧ (http_body E doc_url = DlComplete →
             out.1 = inl (ValueError ("Unsupported file type: " +:+ ext)))
          ∧ Forall (λ ev, ¬ record_event ev) (new_events w out.2)))
  ∧ (∀ c, ext ∈ class_exts c →
       (∀ c', ext ∈ class_exts c' → c' = c)
       ∧ (c = BinStub → ∀ doc_url,
            ingest_as E ext doc_url
            = handle_bin_stub E (basename_of E doc_url) ext doc_url)
       ∧ (c ≠ BinStub → ∀ temp_path basename doc_url,
            dispatch E temp_path basename ext doc_url
            = run_handler E c temp_path basename ext doc_url)).
Proof.
  split.
  - intros Hno. split.
    { intros. by apply dispatch_unrecognized. }
    intros doc_url w out.
    assert (Hext : ext ≠ ".bin").
    { intros ->. apply (Hno BinStub). apply elem_of_cons. by left. }
    subst out. destruct (http_body E doc_url) as [e|e|] eqn:Hbody.
    + rewrite (ingest_as_refused E ext doc_url e w Hext Hbody).
      cbn [fst snd]. rewrite new_events_app.
      split; [done|]. split; [done|]. repeat constructor. by intros [].
    + rewrite (ingest_as_broken E ext doc_url e w Hext Hbody).
      cbn [fst snd]. split; [done|]. split; [done|].
      unfold new_events, opened. cbn [trace]. rewrite drop_app_length.
      repeat constructor; by intros [].
    + destruct (ingest_as_complete E ext doc_url w Hext Hbody)
        as (t & Hw2 & _ & ->).
      rewrite dispatch_unrecognized in Hw2 |- * by done.
      cbn [fst snd] in *.
      assert (Ht : t = []).
      { apply (f_equal trace) in Hw2. simpl in Hw2.
        rewrite <-(app_nil_r (_ ++ _)) in Hw2 at 1.
        by apply app_inv_head in Hw2. }
      subst t. split; [done|]. split; [done|].
      unfold new_events, opened. cbn [trace].
      rewrite <-app_assoc, drop_app_length.
      repeat constructor; by intros [].
  - intros c Hc. split; [|split].
    + intros c' Hc'. by eapply class_exts_disjoint.
    + intros -> doc_url.
      assert (ext = ".bin") as ->.
      { apply elem_of_cons in Hc as [->|Hc]; [done|]. by apply elem_of_nil in Hc. }
      apply ingest_as_bin.
    + intros Hbin temp_path basename doc_url. by apply dispatch_recognized.
Qed.

Lemma format_dispatch_total_witness :
  (ingest_as Demo.E ".exe" "http://h/tool.exe" Demo.w0).1
    = inl (ValueError "Unsupported file type: .exe")
  ∧ dispatch Demo.E "/tmp/tmp0.zip" "pack" ".zip" "http://h/pack.zip"
    = run_handler Demo.E Archive "/tmp/tmp0.zip" "pack" ".zip" "http://h/pack.zip".
Proof.
  destruct (format_dispatch_total Demo.E ".exe") as [Hun _].
  destruct (format_dispatch_total Demo.E ".zip") as [_ Hrec].
  split.
  - destruct Hun as [_ Hpipe].
    + intros c Hin. apply mem_spec in Hin. by destruct c.
    + destruct (Hpipe "http://h/tool.exe" Demo.w0) as (_ & Herr & _).
      apply Herr. reflexivity.
  - destruct (Hrec Archive) as (_ & _ & Hrun).
    + by apply mem_spec.
    + apply Hrun. discriminate.
Defined.

(** ** Temporary files *)

Lemma temp_removed_after_dispatch (E : env) (ext doc_url : string) (w : world) :
  ext ≠ ".bin" → http_body E doc_url = DlComplete →
  let out := ingest_as E ext doc_url w in
  (mktemp E (tmp_files w) ext ∉ tmp_files out.2)
  ∧ last (new_events w out.2) = Some (EvRemove (mktemp E (tmp_files w) ext)).
Proof.
  intros Hext Hbody out. subst out.
  destruct (ingest_as_complete E ext doc_url w Hext Hbody) as (t & _ & _ & ->).
  cbn [snd tmp_files]. split.
  { apply not_elem_of_difference. right. by apply elem_of_singleton. }
  unfold new_events, opened. cbn [trace].
  rewrite <-app_assoc, drop_app_length.
  rewrite !app_assoc. apply last_snoc.
Qed.

(** C9, at the failing input: the body stream of a PDF breaks after the
    temporary file was opened.  The pipeline fails with the transport
    error, the file is still on disk and was never removed. *)
Theorem broken_download_leaves_temp :
  let E := Demo.make (inr "") (DlBroken (HTTPError "timeout"))
             (Leaf "text/plain" "hi") (λ _, None) [] (inr "") in
  let out := extract_and_embed_chunks E "http://h/report.pdf" Demo.w0 in
  out.1 = inl (HTTPError "timeout")
  ∧ "/tmp/tmp0.pdf" ∈ tmp_files out.2
  ∧ new_events Demo.w0 out.2
    = [EvProbe "http://h/report.pdf"; EvDownload "http://h/report.pdf";
       EvCreateTemp "/tmp/tmp0.pdf"].
Proof.
  intros E out.
  assert (Hout : out = (inl (HTTPError "timeout"),
            World None (∅ ∪ {["/tmp/tmp0.pdf"]})
              [EvProbe "http://h/report.pdf"; EvDownload "http://h/report.pdf";
               EvCreateTemp "/tmp/tmp0.pdf"])) by reflexivity.
  rewrite Hout. cbn [fst snd tmp_files]. split; [done|]. split; [|done].
  apply elem_of_union_r. by apply elem_of_singleton.
Qed.

(** ** E-mail extraction *)







(** C8, at the failing input: a message that is not multipart and whose
    only body is text/html.  The extracted text is that HTML body. *)
Theorem eml_singular_html_extracted :
  extract_eml (Leaf "text/html" "<p>hi</p>") = inr "<p>hi</p>"
  ∧ plain_payloads (walk (Leaf "text/html" "<p>hi</p>")) = []
  ∧ ∀ w, (extract_text_file
            (Demo.make (inr "") DlComplete (Leaf "text/html" "<p>hi</p>")
               (λ _, None) [] (inr ""))
            "/tmp/tmp0.eml" ".eml" w).1 = inr "<p>hi</p>".
Proof. done. Qed.

(** ** The ledger gate *)

Lemma get_url_extension_world (E : env) (url : string) (w : world) :
  (get_url_extension E url w).2 = with_trace w (trace w ++ [EvProbe url]).
Proof.
  unfold get_url_extension, bind, emit, lift.
  destruct (content_disposition E url) as [e|cd]; [done|].
  cbn [fst snd]. by destruct (Py.contains "filename=" cd).
Qed.

Lemma ingest_as_frame (E : env) (ext url : string) (w : world) :
  ledger_file (ingest_as E ext url w).2 = ledger_file w
  ∧ ∃ t, trace (ingest_as E ext url w).2 = trace w ++ t
         ∧ Forall ingestion_event t.
Proof.
  destruct (decide (ext = ".bin")) as [->|Hext].
  - rewrite ingest_as_bin.
    destruct (quiet_run_handler E BinStub "" (basename_of E url) ".bin" url w)
      as (t & Hw & Ht).
    cbn [run_handler] in Hw. rewrite Hw. split; [done|]. by exists t.
  - destruct (http_body E url) as [e|e|] eqn:Hbody.
    + rewrite (ingest_as_refused E ext url e w Hext Hbody).
      split; [done|]. eexists. split; [done|]. by repeat constructor.
    + rewrite (ingest_as_broken E ext url e w Hext Hbody).
      split; [done|]. eexists. split; [done|]. by repeat constructor.
    + destruct (ingest_as_complete E ext url w Hext Hbody) as (t & _ & Ht & ->).
      split; [done|]. cbn [snd trace opened].
      eexists. rewrite <-app_assoc. split; [done|].
      apply Forall_app. split; [by repeat constructor|].
      apply Forall_app. split; [done|]. by repeat constructor.
Qed.

Lemma pipeline_frame (E : env) (url : string) (w : world) :
  ledger_file (extract_and_embed_chunks E url w).2 = ledger_file w
  ∧ ∃ t, trace (extract_and_embed_chunks E url w).2
         = trace w ++ EvProbe url :: t
         ∧ Forall ingestion_event t.
Proof.
  unfold extract_and_embed_chunks, bind.
  pose proof (get_url_extension_world E url w) as Hw1.
  destruct (get_url_extension E url w) as [[e|ext] w1]; simpl in Hw1; subst w1.
  - split; [done|]. exists []. split; [done|constructor].
  - destruct (ingest_as_frame E ext url (with_trace w (trace w ++ [EvProbe url])))
      as (Hl & t & Ht & HP).
    split; [done|]. exists t. split; [|done].
    rewrite Ht. simpl. by rewrite <-app_assoc.
Qed.

Lemma quiet_search_chunks (E : env) (q url : string) (k : nat) :
  quiet answering_event (search_chunks E q url k).
Proof. unfold search_chunks. quiet_tac. Qed.
#[local] Hint Resolve quiet_search_chunks : quiet.

Lemma quiet_get_answer (E : env) (q url : string) (k : nat) :
  quiet answering_event (get_answer E q url k).
Proof. unfold get_answer. quiet_tac. Qed.

Lemma quiet_gather_go {A} (P : event → Prop) (tasks : list (M A))
    (order : list nat) (slots : list (option A)) :
  (∀ t, t ∈ tasks → quiet P t) → quiet P (gather_go tasks order slots).
Proof.
  intros Htasks. revert slots.
  induction order as [|i order IH]; intros slots; simpl.
  - apply quiet_ret.
  - destruct (tasks !! i) as [t|] eqn:Hi; [|apply IH].
    apply quiet_bind; [|intros r; apply IH].
    apply Htasks. by eapply list_elem_of_lookup_2.
Qed.

Lemma quiet_gather {A} (P : event → Prop) (tasks : list (M A)) (order : list nat) :
  (∀ t, t ∈ tasks → quiet P t) → quiet P (gather tasks order).
Proof.
  intros Htasks. unfold gather. apply quiet_bind.
  - by apply quiet_gather_go.
  - intros slots. destruct (mapM _ slots); [apply quiet_ret|apply quiet_raise].
Qed.

Lemma quiet_answers (E : env) (order : list nat) (req : QARequest) :
  quiet answering_event
    (await results <- gather ((λ q, get_answer E q (documents req) 10)
                                <$> questions req) order in
     ret (snd <$> results)).
Proof.
  apply quiet_bind; [|intros; apply quiet_ret].
  apply quiet_gather. intros t Ht.
  apply list_elem_of_fmap in Ht as (q & -> & _). apply quiet_get_answer.
Qed.

Lemma quiet_side_channels (E : env) (order : list nat) (req : QARequest) :
  ¬ general_path req → quiet answering_event (run_hackrx E order req).
Proof.
  intros Hside. unfold run_hackrx.
  destruct (nonempty (questions req)
            && any_mentions "flight number" (questions req)) eqn:Hf.
  - apply quiet_try_except; [|intros; apply quiet_ret].
    unfold run_flight_lookup. quiet_tac.
  - destruct (nonempty (questions req)
              && any_mentions "secret token" (questions req)) eqn:Hs.
    + apply quiet_try_except; [|intros; apply quiet_ret].
      unfold fetch_secret_token. quiet_tac.
    + destruct Hside. by split.
Qed.

Lemma run_hackrx_general (E : env) (order : list nat) (req : QARequest) :
  general_path req → run_hackrx E order req = ingest_and_answer E order req.
Proof. intros [Hf Hs]. unfold run_hackrx. by rewrite Hf, Hs. Qed.

Lemma general_path_dec (req : QARequest) : Decision (general_path req).
Proof. unfold general_path. apply _. Defined.

Lemma ingest_and_answer_known (E : env) (order : list nat) (req : QARequest)
    (w : world) :
  documents req ∈ ledger w →
  ∃ t, (ingest_and_answer E order req w).2 = with_trace w (trace w ++ t)
       ∧ Forall answering_event t.
Proof.
  intros Hin. unfold ingest_and_answer.
  unfold bind at 1. unfold read_ledger. fold (ledger w).
  rewrite bool_decide_eq_true_2 by done.
  unfold bind at 1. unfold ret at 1.
  apply (quiet_answers E order req w).
Qed.

Lemma answering_not_ingestion (ev : event) :
  answering_event ev → ¬ ingestion_event ev.
Proof. destruct ev; simpl; tauto. Qed.

Lemma ingest_and_answer_records (E : env) (order : list nat) (req : QARequest)
    (w : world) :
  documents req ∉ ledger w →
  (extract_and_embed_chunks E (documents req) w).1 = inr tt →
  ledger (ingest_and_answer E order req w).2 = ledger w ++ [documents req].
Proof.
  intros Hnot Hok. unfold ingest_and_answer.
  unfold bind at 1. unfold read_ledger. fold (ledger w).
  rewrite bool_decide_eq_false_2 by done.
  unfold bind at 1. unfold bind at 1.
  destruct (extract_and_embed_chunks E (documents req) w) as [[e|[]] w1];
    [done|].
  unfold write_ledger.
  destruct (quiet_answers E order req
              (World (Some (ledger w ++ [documents req])) (tmp_files w1) (trace w1)))
    as (t & Hw & _).
  unfold ledger at 1. by rewrite Hw.
Qed.

(** C3.  A request whose locator is in the ledger adds no event of the
    ingestion pipeline to the trace: no probe, download, temporary file,
    decoder run, chunking or upsert.  And when a request on the general
    path ingests its locator with success, the locator is in the ledger
    afterwards, so every later request for it, whatever the services
    reply then, adds no such event either. *)
Theorem ledger_gate (E : env) (order : list nat) (req : QARequest) (w : world) :
  (documents req ∈ ledger w →
     Forall (λ ev, ¬ ingestion_event ev)
       (new_events w (run_hackrx E order req w).2))
  ∧ (general_path req → documents req ∉ ledger w →
     (extract_and_embed_chunks E (documents req) w).1 = inr tt →
     let w' := (run_hackrx E order req w).2 in
     documents req ∈ ledger w'
     ∧ ∀ E' order' req', documents req' = documents req →
         Forall (λ ev, ¬ ingestion_event ev)
           (new_events w' (run_hackrx E' order' req' w').2)).
Proof.
  assert (Hgate : ∀ E0 order0 req0 w0, documents req0 ∈ ledger w0 →
            Forall (λ ev, ¬ ingestion_event ev)
              (new_events w0 (run_hackrx E0 order0 req0 w0).2)).
  { intros E0 order0 req0 w0 Hin.
    assert (∃ t, (run_hackrx E0 order0 req0 w0).2 = with_trace w0 (trace w0 ++ t)
                 ∧ Forall answering_event t) as (t & -> & Ht).
    { destruct (general_path_dec req0) as [Hg|Hs].
      - rewrite run_hackrx_general by done. by apply ingest_and_answer_known.
      - by apply quiet_side_channels. }
    rewrite new_events_app.
    eapply Forall_impl; [exact Ht|]. apply answering_not_ingestion. }
  split; [apply Hgate|].
  intros Hg Hnot Hok w'.
  assert (Hin : documents req ∈ ledger w').
  { subst w'. rewrite run_hackrx_general by done.
    rewrite ingest_and_answer_records by done.
    apply elem_of_app. right. apply elem_of_cons. by left. }
  split; [done|]. intros E' order' req' Hsame.
  apply Hgate. by rewrite Hsame.
Qed.

Lemma ledger_gate_witness :
  let req := {| documents := "http://h/notes.txt"; questions := ["what?"] |} in
  let w' := (run_hackrx Demo.E [0] req Demo.w0).2 in
  documents req ∈ ledger w'
  ∧ Forall (λ ev, ¬ ingestion_event ev)
      (new_events w' (run_hackrx Demo.E [0] req w').2).
Proof.
  intros req w'.
  destruct (ledger_gate Demo.E [0] req Demo.w0) as [_ Hsecond].
  destruct Hsecond as [Hin Hlater].
  - split; reflexivity.
  - vm_compute. apply not_elem_of_nil.
  - vm_compute. reflexivity.
  - split; [exact Hin|]. apply (Hlater Demo.E [0] req). reflexivity.
Defined.

(** ** Failed ingestion *)

Lemma ingest_and_answer_attempts (E : env) (order : list nat) (req : QARequest)
    (w : world) :
  documents req ∉ ledger w →
  ∃ t, trace (ingest_and_answer E order req w).2
       = trace w ++ EvProbe (documents req) :: t.
Proof.
  intros Hnot. unfold ingest_and_answer.
  unfold bind at 1. unfold read_ledger. fold (ledger w).
  rewrite bool_decide_eq_false_2 by done.
  unfold bind at 1. unfold bind at 1.
  destruct (pipeline_frame E (documents req) w) as (_ & t1 & Ht1 & _).
  destruct (extract_and_embed_chunks E (documents req) w) as [[e|[]] w1];
    cbn [snd] in Ht1.
  - by exists t1.
  - unfold write_ledger.
    destruct (quiet_answers E order req
                (World (Some (ledger w ++ [documents req])) (tmp_files w1) (trace w1)))
      as (t2 & Hw & _).
    rewrite Hw. cbn [trace with_trace]. rewrite Ht1.
    exists (t1 ++ t2). by rewrite <-app_assoc.
Qed.

(** C4.  On the general path, with the locator not in the ledger: when
    the ingestion pipeline raises, whatever the error, the request fails
    with that error and the ledger file is what it was; a later request
    for the same locator therefore starts the pipeline again, its first
    new event being the probe of the locator. *)
Theorem ingestion_error_not_recorded (E : env) (order : list nat)
    (req : QARequest) (w : world) (e : exn) :
  general_path req → documents req ∉ ledger w →
  (extract_and_embed_chunks E (documents req) w).1 = inl e →
  let out := run_hackrx E order req w in
  out.1 = inl e
  ∧ ledger_file out.2 = ledger_file w
  ∧ ∀ E' order' req', documents req' = documents req → general_path req' →
      ∃ t, new_events out.2 (run_hackrx E' order' req' out.2).2
           = EvProbe (documents req) :: t.
Proof.
  intros Hg Hnot Herr out.
  assert (Hout : out = (inl e, (extract_and_embed_chunks E (documents req) w).2)).
  { subst out. rewrite run_hackrx_general by done. unfold ingest_and_answer.
    unfold bind at 1. unfold read_ledger. fold (ledger w).
    rewrite bool_decide_eq_false_2 by done.
    unfold bind at 1. unfold bind at 1.
    destruct (extract_and_embed_chunks E (documents req) w) as [[e'|[]] w1];
      simpl in Herr; [|done]. by injection Herr as ->. }
  destruct (pipeline_frame E (documents req) w) as (Hledger & _).
  rewrite Hout. cbn [fst snd]. split; [done|]. split; [done|].
  intros E' order' req' Hsame Hg'.
  rewrite run_hackrx_general by done.
  destruct (ingest_and_answer_attempts E' order' req'
              (extract_and_embed_chunks E (documents req) w).2) as (t & Ht).
  { unfold ledger. rewrite Hledger, Hsame. exact Hnot. }
  exists t. unfold new_events. rewrite Ht, Hsame. by rewrite drop_app_length.
Qed.

Lemma ingestion_error_not_recorded_witness :
  let req := {| documents := "http://h/tool.exe"; questions := ["what?"] |} in
  let out := run_hackrx Demo.E [0] req Demo.w0 in
  out.1 = inl (ValueError "Unsupported file type: .exe")
  ∧ ledger_file out.2 = None
  ∧ ∃ t, new_events out.2 (run_hackrx Demo.E [0] req out.2).2
         = EvProbe "http://h/tool.exe" :: t.
Proof.
  intros req out.
  destruct (ingestion_error_not_recorded Demo.E [0] req Demo.w0
              (ValueError "Unsupported file type: .exe"))
    as (Hres & Hledger & Hretry).
  - split; reflexivity.
  - vm_compute. apply not_elem_of_nil.
  - vm_compute. reflexivity.
  - split; [exact Hres|]. split; [exact Hledger|].
    apply (Hretry Demo.E [0] req); [reflexivity|split; reflexivity].
Defined.

(** ** The secret-token side channel *)

Lemma filter_existsb {A} (f : A → bool) (l : list A) :
  0 < length (List.filter f l) → existsb f l = true ∧ nonempty l = true.
Proof.
  induction l as [|x l IH]; simpl; [lia|].
  intros Hlen. split; [|done].
  destruct (f x); [done|]. simpl. by apply IH.
Qed.

(** C6, as amended.  When exactly one question mentions "secret token",
    none mentions "flight number" (both matched on the lower-cased
    question) and the token lookup returns [t], the handler returns one
    answer per question, each equal to "Secret Token: " followed by [t]. *)
Theorem secret_token_batch (E : env) (order : list nat) (req : QARequest)
    (w : world) (t : string) :
  any_mentions "flight number" (questions req) = false →
  length (List.filter mentions_secret (questions req)) = 1 →
  (fetch_secret_token E (documents req) w).1 = inr t →
  ∃ answers,
    (run_hackrx E order req w).1 = inr answers
    ∧ length answers = length (questions req)
    ∧ ∀ a, a ∈ answers → a = "Secret Token: " +:+ t.
Proof.
  intros Hflight Hone Htoken.
  destruct (filter_existsb mentions_secret (questions req)) as [Hany Hne];
    [lia|].
  exists ((λ _, "Secret Token: " +:+ t) <$> questions req).
  split; [|split].
  - unfold run_hackrx. rewrite Hflight, andb_false_r.
    unfold any_mentions. fold mentions_secret.
    change (existsb (λ q, Py.contains "secret token" (Py.lower q)) (questions req))
      with (existsb mentions_secret (questions req)).
    rewrite Hany, Hne. cbn [andb].
    unfold try_except, bind.
    destruct (fetch_secret_token E (documents req) w) as [[e|t'] w1];
      simpl in Htoken; [done|]. by injection Htoken as ->.
  - by rewrite length_fmap.
  - intros a Ha. by apply list_elem_of_fmap in Ha as (q & -> & _).
Qed.

Lemma secret_token_batch_witness :
  let req := {| documents := "http://h/page";
                questions := ["What is the SECRET Token?"; "Who wrote it?"] |} in
  (run_hackrx Demo.E [] req Demo.w0).1
  = inr ["Secret Token: abc123"; "Secret Token: abc123"].
Proof.
  intros req.
  destruct (secret_token_batch Demo.E [] req Demo.w0 "abc123")
    as (answers & Hrun & Hlen & Hall); [reflexivity|reflexivity|reflexivity|].
  rewrite Hrun. f_equal.
  destruct answers as [|a [|b [|c answers]]]; try discriminate Hlen.
  rewrite (Hall a), (Hall b); [reflexivity| |].
  - apply elem_of_cons. right. apply elem_of_cons. by left.
  - apply elem_of_cons. by left.
Defined.

(** C6 as stated fails: one question mentions the secret token, another
    the flight number; the token lookup would return "abc123", yet the
    flight-number branch, tested first, answers the whole batch. *)
Lemma secret_token_batch_counterexample :
  let req := {| documents := "http://h/page";
                questions := ["What is the secret token?";
                              "What is my flight number?"] |} in
  length (List.filter mentions_secret (questions req)) = 1
  ∧ (fetch_secret_token Demo.E (documents req) Demo.w0).1 = inr "abc123"
  ∧ (run_hackrx Demo.E [] req Demo.w0).1
    = inr ["Destination: Paris and Flight Number: AB123";
           "Destination: Paris and Flight Number: AB123"]
  ∧ (run_hackrx Demo.E [] req Demo.w0).1
    ≠ inr ["Secret Token: abc123"; "Secret Token: abc123"].
Proof.
  intros req. split; [reflexivity|]. split; [reflexivity|].
  split; [vm_compute; reflexivity|]. vm_compute. discriminate.
Qed.

(** ** Order of the answers *)

Lemma gather_go_result {A} (tasks : list (M A)) (res : list A) :
  length tasks = length res →
  (∀ i t r w, tasks !! i = Some t → res !! i = Some r → (t w).1 = inr r) →
  ∀ order slots w,
    (gather_go tasks order slots w).1 = inr (fill res slots order).
Proof.
  intros Hlen Hres order.
  induction order as [|i order IH]; intros slots w; [done|].
  cbn [gather_go fill foldl].
  destruct (tasks !! i) as [t|] eqn:Ht.
  - destruct (res !! i) as [r|] eqn:Hr.
    + unfold bind. pose proof (Hres i t r w Ht Hr) as Hrun.
      destruct (t w) as [[e|r'] w1]; simpl in Hrun; [done|].
      injection Hrun as ->. apply IH.
    + apply lookup_lt_Some in Ht. apply lookup_ge_None in Hr. lia.
  - destruct (res !! i) as [r|] eqn:Hr.
    + apply lookup_lt_Some in Hr. apply lookup_ge_None in Ht. lia.
    + apply IH.
Qed.

Lemma length_fill {A} (res : list A) (order : list nat) (slots : list (option A)) :
  length (fill res slots order) = length slots.
Proof.
  revert slots. induction order as [|i order IH]; intros slots; [done|].
  cbn [fill foldl]. fold (fill res). destruct (res !! i).
  - unfold fill in IH |- *. by rewrite IH, length_insert.
  - apply IH.
Qed.

Lemma lookup_fill_filled {A} (res : list A) (order : list nat)
    (slots : list (option A)) (j : nat) (r : A) :
  res !! j = Some r → slots !! j = Some (Some r) →
  fill res slots order !! j = Some (Some r).
Proof.
  intros Hr. revert slots.
  induction order as [|i order IH]; intros slots Hj; [done|].
  cbn [fill foldl]. apply IH.
  destruct (res !! i) as [r'|] eqn:Hi; [|done].
  destruct (decide (i = j)) as [->|Hne].
  - rewrite Hr in Hi. injection Hi as <-.
    apply list_lookup_insert_eq. by eapply lookup_lt_Some.
  - by rewrite list_lookup_insert_ne.
Qed.

Lemma lookup_fill {A} (res : list A) (order : list nat)
    (slots : list (option A)) (j : nat) (r : A) :
  length slots = length res → res !! j = Some r → j ∈ order →
  fill res slots order !! j = Some (Some r).
Proof.
  intros Hlen Hr. revert slots Hlen.
  induction order as [|i order IH]; intros slots Hlen Hj.
  - by apply elem_of_nil in Hj.
  - cbn [fill foldl].
    destruct (decide (i = j)) as [->|Hne].
    + rewrite Hr. apply lookup_fill_filled; [done|].
      apply list_lookup_insert_eq. rewrite Hlen. by eapply lookup_lt_Some.
    + apply elem_of_cons in Hj as [->|Hj]; [done|].
      destruct (res !! i); apply IH; by rewrite ?length_insert.
Qed.

Lemma gather_in_order {A} (tasks : list (M A)) (res : list A)
    (order : list nat) (w : world) :
  length tasks = length res →
  (∀ i t r w, tasks !! i = Some t → res !! i = Some r → (t w).1 = inr r) →
  order ≡ₚ seq 0 (length tasks) →
  (gather tasks order w).1 = inr res.
Proof.
  intros Hlen Hres Hperm. unfold gather, bind.
  pose proof (gather_go_result tasks res Hlen Hres order
                (replicate (length tasks) None) w) as Hgo.
  destruct (gather_go tasks order (replicate (length tasks) None) w)
    as [[e|slots] w1]; simpl in Hgo; [done|].
  injection Hgo as ->.
  assert (Hall : mapM (λ slot, slot)
                   (fill res (replicate (length tasks) None) order) = Some res).
  { apply mapM_Some, Forall2_same_length_lookup. split.
    - by rewrite length_fill, length_replicate.
    - intros j slot r Hslot Hr.
      rewrite (lookup_fill res order _ j r) in Hslot.
      + by injection Hslot as <-.
      + by rewrite length_replicate.
      + done.
      + rewrite Hperm. apply elem_of_seq. apply lookup_lt_Some in Hr. lia. }
  by rewrite Hall.
Qed.

Lemma get_answer_result (E : env) (url q a : string) (w : world) :
  answer_for E url q = Some a → (get_answer E q url 10 w).1 = inr (q, a).
Proof.
  unfold answer_for, get_answer, search_chunks, bind, emit, lift, ret.
  destruct (search_reply E _) as [e|resp]; [done|]. cbn [fst snd].
  destruct (ainvoke E q (extract_texts resp)) as [e|txt]; [done|].
  by intros [= <-].
Qed.

(** C2.  On the general path, once the ledger gate is passed (the locator
    is known, or its ingestion succeeds) and retrieval and generation
    succeed for every question: for every order in which the N units
    finish, a permutation of 0..N-1, the handler returns N answers and
    the i-th is the answer to the i-th question. *)
Theorem answers_in_question_order (E : env) (order : list nat)
    (req : QARequest) (w : world) :
  general_path req →
  (documents req ∈ ledger w
   ∨ (extract_and_embed_chunks E (documents req) w).1 = inr tt) →
  order ≡ₚ seq 0 (length (questions req)) →
  (∀ q, q ∈ questions req → is_Some (answer_for E (documents req) q)) →
  ∃ answers,
    (run_hackrx E order req w).1 = inr answers
    ∧ length answers = length (questions req)
    ∧ ∀ i q, questions req !! i = Some q →
        ∃ a, answers !! i = Some a ∧ answer_for E (documents req) q = Some a.
Proof.
  intros Hg Hgate Hperm Hok.
  set (url := documents req) in *.
  set (ans := λ q, default "" (answer_for E url q)).
  set (tasks := (λ q, get_answer E q url 10) <$> questions req).
  set (res := (λ q, (q, ans q)) <$> questions req).
  assert (Hgather : ∀ w0, (gather tasks order w0).1 = inr res).
  { intros w0. apply gather_in_order.
    - subst tasks res. by rewrite !length_fmap.
    - intros i t r w1 Ht Hr. subst tasks res.
      rewrite list_lookup_fmap in Ht. rewrite list_lookup_fmap in Hr.
      destruct (questions req !! i) as [q|] eqn:Hq; [|done].
      cbn in Ht, Hr. injection Ht as <-. injection Hr as <-.
      apply get_answer_result. subst ans. cbn beta.
      destruct (Hok q) as [a Ha]; [by eapply list_elem_of_lookup_2|].
      by rewrite Ha.
    - subst tasks. by rewrite length_fmap. }
  exists (ans <$> questions req). split; [|split].
  - rewrite run_hackrx_general by done. unfold ingest_and_answer.
    fold url tasks.
    unfold bind at 1. unfold read_ledger. fold (ledger w).
    assert (Hfin : ∀ w0,
              (bind (gather tasks order) (λ results, ret (snd <$> results)) w0).1
              = inr (ans <$> questions req)).
    { intros w0. unfold bind. specialize (Hgather w0).
      destruct (gather tasks order w0) as [[e|results] w1];
        simpl in Hgather; [done|].
      injection Hgather as ->. cbn. f_equal. subst res.
      by rewrite <-list_fmap_compose. }
    destruct (decide (url ∈ ledger w)) as [Hin|Hnot].
    + rewrite bool_decide_eq_true_2 by done.
      unfold bind at 1. unfold ret at 1. apply Hfin.
    + rewrite bool_decide_eq_false_2 by done.
      destruct Hgate as [Hin|Hing]; [done|].
      unfold bind at 1. unfold bind at 1.
      destruct (extract_and_embed_chunks E url w) as [[e|[]] w1];
        simpl in Hing; [done|].
      unfold write_ledger. apply Hfin.
  - by rewrite length_fmap.
  - intros i q Hq. exists (ans q). split.
    + by rewrite list_lookup_fmap, Hq.
    + subst ans. cbn beta.
      destruct (Hok q) as [a Ha]; [by eapply list_elem_of_lookup_2|].
      by rewrite Ha.
Qed.

Lemma answers_in_question_order_witness :
  let req := {| documents := "http://h/notes.txt";
                questions := ["one?"; "two?"; "three?"] |} in
  ∃ answers,
    (run_hackrx Demo.E [2; 0; 1] req Demo.w0).1 = inr answers
    ∧ ∀ i q, questions req !! i = Some q →
        ∃ a, answers !! i = Some a
             ∧ answer_for Demo.E (documents req) q = Some a.
Proof.
  intros req.
  destruct (answers_in_question_order Demo.E [2; 0; 1] req Demo.w0)
    as (answers & Hrun & _ & Hith).
  - split; reflexivity.
  - right. vm_compute. reflexivity.
  - change (length (questions req)) with 3. cbn [seq].
    etrans; [apply Permutation_swap|]. apply Permutation_skip.
    apply Permutation_swap.
  - intros q Hq. cbn [questions req] in Hq.
    repeat (apply elem_of_cons in Hq as [->|Hq]); try (by eexists);
      by apply elem_of_nil in Hq.
  - exists answers. by split.
Defined.

(** * Further properties of the code *)

(** ** Stub handlers *)

Lemma upsert_one (E : env) (c : chunk) (doc_url : string) (w : world) :
  upsert_chunks E [c] doc_url w
  = (match upsert_records_reply E [enrich doc_url c] with
     | None => inr tt
     | Some e => inl e
     end,
     with_trace w (trace w ++ [EvUpsert [enrich doc_url c]])).
Proof.
  unfold upsert_chunks.
  change (Py.range (length (enrich doc_url <$> [c])) MAX_BATCH) with [0].
  cbn [for_each]. unfold bind at 1. unfold upsert_records, bind, emit.
  change (Py.slice (enrich doc_url <$> [c]) 0 (0 + MAX_BATCH))
    with [enrich doc_url c].
  by destruct (upsert_records_reply E [enrich doc_url c]).
Qed.

(** The binary stub: a [.bin] suffix is answered without fetching the
    body.  The only thing the pipeline does is one upsert of one record,
    with id "<basename>::metadata"; no temporary file is created and the
    outcome is the store's reply. *)
Theorem bin_stub_no_fetch (E : env) (doc_url : string) (w : world) :
  let basename := basename_of E doc_url in
  let r := stub_record basename
             ("Binary file " +:+ basename +:+ ".bin"
              +:+ "; content not extractable.") doc_url in
  let out := ingest_as E ".bin" doc_url w in
  new_events w out.2 = [EvUpsert [r]]
  ∧ tmp_files out.2 = tmp_files w
  ∧ ledger_file out.2 = ledger_file w
  ∧ out.1 = match upsert_records_reply E [r] with
            | None => inr tt
            | Some e => inl e
            end.
Proof.
  intros basename r out. subst out.
  rewrite ingest_as_bin. unfold handle_bin_stub. fold basename.
  rewrite upsert_one. cbn [fst snd]. by rewrite new_events_app.
Qed.

Lemma lstrip_blank (s : string) : blank s = true → Py.lstrip s = "".
Proof.
  induction s as [|c s IH]; [done|]. cbn [blank Py.lstrip].
  intros [Hc Hs]%andb_true_iff. rewrite Hc. by apply IH.
Qed.

Lemma strip_blank (s : string) : blank s = true → Py.strip s = "".
Proof. intros Hs. unfold Py.strip. by rewrite (lstrip_blank s Hs). Qed.

(** An image whose OCR output is empty or whitespace only: the tokenizer
    is not run and no chunk id is built; the handler sends exactly one
    record, with id "<basename>::metadata". *)
Theorem image_without_text_gives_stub (E : env)
    (temp_path basename ext doc_url raw : string) (w : world) :
  image_to_string E temp_path = inr raw → blank raw = true →
  let r := stub_record basename
             ("Image file " +:+ basename +:+ ext
              +:+ ", OCR returned no useful text.") doc_url in
  let out := handle_image_ocr E temp_path basename ext doc_url w in
  new_events w out.2 = [EvExtract temp_path; EvUpsert [r]]
  ∧ out.1 = match upsert_records_reply E [r] with
            | None => inr tt
            | Some e => inl e
            end.
Proof.
  intros Hocr Hblank r out.
  assert (Hrun : out = (match upsert_records_reply E [r] with
                        | None => inr tt
                        | Some e => inl e
                        end,
                        with_trace w (trace w ++ [EvExtract temp_path; EvUpsert [r]]))).
  { subst out. unfold handle_image_ocr. unfold bind at 1. unfold emit.
    unfold bind at 1. unfold lift. rewrite Hocr, strip_blank by done.
    cbn [String.length Nat.leb]. rewrite upsert_one.
    unfold with_trace. cbn [ledger_file tmp_files trace].
    by rewrite <-app_assoc. }
  rewrite Hrun. cbn [fst snd]. by rewrite new_events_app.
Qed.

Lemma image_without_text_gives_stub_witness :
  (handle_image_ocr Demo.E "/tmp/tmp0.png" "scan" ".png" "http://h/scan.png"
     Demo.w0).1 = inr tt
  ∧ new_events Demo.w0
      (handle_image_ocr Demo.E "/tmp/tmp0.png" "scan" ".png" "http://h/scan.png"
         Demo.w0).2
    = [EvExtract "/tmp/tmp0.png";
       EvUpsert [stub_record "scan"
                   "Image file scan.png, OCR returned no useful text."
                   "http://h/scan.png"]].
Proof.
  destruct (image_without_text_gives_stub Demo.E "/tmp/tmp0.png" "scan" ".png"
              "http://h/scan.png" "" Demo.w0) as [Hev Hres];
    [reflexivity|reflexivity|].
  split; [exact Hres|exact Hev].
Defined.

(** ** Temporary files, continued *)

(** Accounting of the temporary file, for a suffix other than [.bin]:
    a refused request creates none; a completed download creates one and
    the pipeline removes it whatever the handler does, so the set of
    temporary files only loses the path (it is as before if the path is
    new), and the removal is the last thing the pipeline does. *)
Theorem temp_file_accounting (E : env) (ext doc_url : string) (w : world) :
  ext ≠ ".bin" →
  let path := mktemp E (tmp_files w) ext in
  let out := ingest_as E ext doc_url w in
  (∀ e, http_body E doc_url = DlRefused e →
     tmp_files out.2 = tmp_files w ∧ out.1 = inl e
     ∧ new_events w out.2 = [EvDownload doc_url])
  ∧ (http_body E doc_url = DlComplete →
     tmp_files out.2 = tmp_files w ∖ {[path]}
     ∧ last (new_events w out.2) = Some (EvRemove path)
     ∧ out.1 = (dispatch E path (basename_of E doc_url) ext doc_url
                  (opened E ext doc_url w)).1).
Proof.
  intros Hext path out. split.
  - intros e Hbody. subst out.
    rewrite (ingest_as_refused E ext doc_url e w Hext Hbody).
    cbn [fst snd]. by rewrite new_events_app.
  - intros Hbody. subst out.
    destruct (ingest_as_complete E ext doc_url w Hext Hbody) as (t & _ & _ & ->).
    cbn [fst snd tmp_files]. fold path. split; [|split; [|done]].
    + apply set_eq. intros x.
      rewrite !elem_of_difference, elem_of_union, elem_of_singleton. tauto.
    + unfold new_events, opened. cbn [trace].
      rewrite <-app_assoc, drop_app_length. fold path.
      rewrite !app_assoc. apply last_snoc.
Qed.

Lemma temp_file_accounting_witness :
  let out := ingest_as Demo.E ".zip" "http://h/pack.zip" Demo.w0 in
  tmp_files out.2 = (∅ : gset string) ∖ {["/tmp/tmp0.zip"]}
  ∧ last (new_events Demo.w0 out.2) = Some (EvRemove "/tmp/tmp0.zip").
Proof.
  intros out.
  destruct (temp_file_accounting Demo.E ".zip" "http://h/pack.zip" Demo.w0)
    as [_ Hdone]; [discriminate|].
  destruct Hdone as (Htmp & Hlast & _); [reflexivity|].
  split; [exact Htmp|exact Hlast].
Defined.

(** ** The batcher, continued *)

Lemma for_each_upsert_fail (E : env) (f : nat → list store_record)
    (l : list nat) (k i : nat) (e : exn) (w : world) :
  l !! k = Some i → upsert_records_reply E (f i) = Some e →
  (∀ j i', j < k → l !! j = Some i' → upsert_records_reply E (f i') = None) →
  for_each l (λ i, upsert_records E (f i)) w
  = (inl e, with_trace w (trace w ++ (EvUpsert <$> (f <$> take (S k) l)))).
Proof.
  revert k w. induction l as [|i0 l IH]; intros k w Hk He Hbefore; [done|].
  cbn [for_each]. unfold bind at 1. unfold upsert_records at 1.
  unfold bind at 1, emit.
  destruct k as [|k].
  - injection Hk as ->. by rewrite He.
  - rewrite (Hbefore 0 i0) by (done || lia). unfold ret at 1.
    rewrite (IH k); [|done|done|].
    + unfold with_trace. cbn. by rewrite <-app_assoc.
    + intros j i' Hj Hi'. apply (Hbefore (S j) i'); [lia|done].
Qed.

(** A rejected batch ends the upload: when the store rejects the batch of
    position [k] after acknowledging the earlier ones, [upsert_chunks]
    raises the store's error, and the calls it has issued are the first
    [k + 1] batches; no later batch is sent and nothing is retried. *)
Theorem upsert_stops_at_rejection (E : env) (chunks : list chunk)
    (source_url : string) (k : nat) (b : list store_record) (e : exn)
    (w : world) :
  let records := enrich source_url <$> chunks in
  batches records !! k = Some b →
  upsert_records_reply E b = Some e →
  (∀ j b', j < k → batches records !! j = Some b' →
           upsert_records_reply E b' = None) →
  let out := upsert_chunks E chunks source_url w in
  out.1 = inl e
  ∧ upsert_calls (new_events w out.2) = take (S k) (batches records).
Proof.
  intros records Hk He Hbefore out.
  set (f := λ i, Py.slice records i (i + MAX_BATCH)).
  unfold batches in Hk, Hbefore. fold f in Hk, Hbefore.
  rewrite list_lookup_fmap in Hk.
  destruct (Py.range (length records) MAX_BATCH !! k) as [i|] eqn:Hi; [|done].
  cbn in Hk. injection Hk as <-.
  assert (Hrun : out = (inl e, with_trace w (trace w ++ (EvUpsert <$>
            (f <$> take (S k) (Py.range (length records) MAX_BATCH)))))).
  { subst out. unfold upsert_chunks. fold records. fold f.
    apply (for_each_upsert_fail E f _ k i e w Hi He).
    intros j i' Hj Hi'. apply (Hbefore j (f i') Hj).
    by rewrite list_lookup_fmap, Hi'. }
  rewrite Hrun. cbn [fst snd]. split; [done|].
  rewrite new_events_app, upsert_calls_upserts.
  unfold batches. fold f. by rewrite fmap_take.
Qed.

Lemma upsert_stops_at_rejection_witness :
  let chunks := (λ k, Chunk (Py.str_of_nat k) "t") <$> seq 0 200 in
  let reject := λ b : list store_record,
    match b with
    | r :: _ => if String.eqb (rec_id r) "96" then Some (StoreError "quota")
                else None
    | [] => None
    end in
  let E := Demo.make (inr "") DlComplete (Leaf "text/plain" "hi") reject []
             (inr "") in
  let out := upsert_chunks E chunks "u" Demo.w0 in
  out.1 = inl (StoreError "quota")
  ∧ length (upsert_calls (new_events Demo.w0 out.2)) = 2.
Proof.
  intros chunks reject E out.
  destruct (upsert_stops_at_rejection E chunks "u" 1
              (Py.slice (enrich "u" <$> chunks) 96 192)
              (StoreError "quota") Demo.w0) as [Hres Hcalls].
  - vm_compute. reflexivity.
  - vm_compute. reflexivity.
  - intros j b' Hj Hb'. assert (j = 0) as -> by lia.
    vm_compute in Hb'. injection Hb' as <-. vm_compute. reflexivity.
  - split; [exact Hres|]. fold out in Hcalls. rewrite Hcalls.
    vm_compute. reflexivity.
Defined.

(** ** The retriever, continued *)

Lemma snippet_of_nonempty (h : hit) (t : string) :
  snippet_of h = Some t → t ≠ "".
Proof.
  unfold snippet_of.
  destruct (default ∅ (fields h) !! "text") as [[|c s]|];
    destruct (default ∅ (fields h) !! "chunk_text") as [[|c' s']|];
    intros [= <-]; done.
Qed.

(** No returned snippet is the empty string.  A hit whose "text" is
    non-empty contributes that value, whatever its "chunk_text": one turn
    of the loop appends it to the list, a response of that single hit
    gives exactly that value, and in general the value is among the
    returned snippets.  An error of the search call is passed on as it
    is, and one search is issued. *)
Theorem search_chunks_texts (E : env) (query doc_url : string) (top_k : nat)
    (w : world) :
  let q := SearchQuery query top_k
             (if String.eqb doc_url "" then None else Some doc_url) in
  let out := search_chunks E query doc_url top_k w in
  (∀ texts, out.1 = inr texts → Forall (λ t, t ≠ "") texts)
  ∧ (∀ e, search_reply E q = inl e → out.1 = inl e)
  ∧ (∀ texts h c s, default ∅ (fields h) !! "text" = Some (String c s) →
       append_hit_text texts h = texts ++ [String c s])
  ∧ (∀ h c s, search_reply E q = inr (SearchResponse (Some (Some [h]))) →
       default ∅ (fields h) !! "text" = Some (String c s) →
       out.1 = inr [String c s])
  ∧ (∀ resp h c s, search_reply E q = inr resp → h ∈ hits_of resp →
       default ∅ (fields h) !! "text" = Some (String c s) →
       ∃ texts, out.1 = inr texts ∧ String c s ∈ texts)
  ∧ new_events w out.2 = [EvSearch query].
Proof.
  intros q out.
  assert (Hrun : out = (match search_reply E q with
                        | inl e => inl e
                        | inr resp => inr (extract_texts resp)
                        end, with_trace w (trace w ++ [EvSearch query]))).
  { subst out. unfold search_chunks, bind, emit, lift, ret. fold q.
    by destruct (search_reply E q). }
  assert (Hturn : ∀ texts h c s,
            default ∅ (fields h) !! "text" = Some (String c s) →
            append_hit_text texts h = texts ++ [String c s]).
  { intros texts h c s Ht. unfold append_hit_text, py_or.
    rewrite Ht. reflexivity. }
  rewrite Hrun. cbn [fst snd]. split; [|split; [|split; [|split; [|split]]]].
  - intros texts. destruct (search_reply E q) as [e|resp]; [done|].
    intros [= <-]. rewrite extract_texts_snippets.
    apply Forall_forall. intros t Ht.
    apply list_elem_of_omap in Ht as (h & _ & Hh).
    by eapply snippet_of_nonempty.
  - by intros e ->.
  - exact Hturn.
  - intros h c s -> Ht. unfold extract_texts.
    cbn [result_hits default from_option Datatypes.id foldl].
    by rewrite (Hturn [] h c s Ht).
  - intros resp h c s -> Hin Ht. eexists. split; [done|].
    unfold extract_texts. fold (hits_of resp).
    assert (Hfold : ∀ hits acc, h ∈ hits ∨ String c s ∈ acc →
              String c s ∈ foldl append_hit_text acc hits).
    { induction hits as [|h' hits IH]; intros acc Hor.
      - destruct Hor as [Hnil|Hacc]; [by apply elem_of_nil in Hnil|done].
      - cbn [foldl]. apply IH.
        destruct Hor as [Hh|Hacc].
        + apply elem_of_cons in Hh as [<-|Hh]; [|by left].
          right. rewrite (Hturn acc h c s Ht).
          apply elem_of_app. right. apply list_elem_of_here.
        + right. unfold append_hit_text.
          destruct (py_or _ _) as [t|]; [|done].
          destruct (truthy (Some t)); [|done].
          apply elem_of_app. by left. }
    destruct (hits_of resp) as [|h0 hits] eqn:Hh;
      [by apply elem_of_nil in Hin|].
    apply Hfold. by left.
  - by rewrite new_events_app.
Qed.

Lemma search_chunks_texts_witness :
  let h := Hit (Some {[ "text" := "first"; "chunk_text" := "other" ]}) in
  let E := Demo.make (inr "") DlComplete (Leaf "text/plain" "hi") (λ _, None)
             [h] (inr "") in
  (search_chunks E "q" "u" 10 Demo.w0).1 = inr ["first"]
  ∧ Forall (λ t, t ≠ "") ["first"].
Proof.
  intros h E.
  destruct (search_chunks_texts E "q" "u" 10 Demo.w0)
    as (Hne & _ & _ & Hone & _).
  assert (Hrun : (search_chunks E "q" "u" 10 Demo.w0).1 = inr ["first"]).
  { apply (Hone h "f"%char "irst"); vm_compute; reflexivity. }
  split; [exact Hrun|]. exact (Hne ["first"] Hrun).
Defined.

(** ** The chunker, continued *)

Lemma str_of_nat_inj (i j : nat) : Py.str_of_nat i = Py.str_of_nat j → i = j.
Proof.
  unfold Py.str_of_nat. intros Heq.
  apply DecimalNat.Unsigned.to_uint_inj.
  apply (f_equal NilEmpty.uint_of_string) in Heq.
  rewrite !NilEmpty.usu in Heq. by injection Heq.
Qed.

Lemma chunk_id_inj (basename : string) (i j : nat) :
  chunk_id basename i = chunk_id basename j → i = j.
Proof.
  unfold chunk_id. intros Heq.
  apply String.app_inj, String.app_inj in Heq. by apply str_of_nat_inj.
Qed.

Lemma NoDup_range (stop step : nat) : 0 < step → NoDup (Py.range stop step).
Proof.
  intros Hs. unfold Py.range. apply NoDup_fmap_2; [|apply NoDup_seq].
  intros a b Hab. nia.
Qed.

(** The ids of the chunks the chunker builds for one document are
    pairwise distinct, and none of them is the id "<basename>::metadata"
    of a stub record. *)
Theorem chunk_ids_unique (E : env) (doc_text basename : string)
    (records : list chunk) :
  chunk_records E doc_text basename = inr records →
  NoDup (id <$> records) ∧ metadata_id basename ∉ id <$> records.
Proof.
  unfold chunk_records.
  destruct (enc_encode E (normalize doc_text)) as [e|tokens]; [done|].
  intros [= <-].
  assert (Hids : id <$> ((λ w, Chunk (chunk_id basename w.1) (enc_decode E w.2))
                          <$> windows tokens)
            = chunk_id basename <$> Py.range (length tokens) 1800).
  { unfold windows. rewrite <-!list_fmap_compose.
    by apply list_fmap_ext. }
  rewrite Hids. split.
  - apply NoDup_fmap_2; [|apply NoDup_range; lia].
    intros i j. apply chunk_id_inj.
  - intros Hin. apply list_elem_of_fmap in Hin as (i & Heq & _).
    unfold metadata_id, chunk_id in Heq.
    apply String.app_inj in Heq. discriminate Heq.
Qed.

Lemma chunk_ids_unique_witness :
  ∃ records,
    chunk_records Demo.E "one two" "doc" = inr records
    ∧ NoDup (id <$> records) ∧ metadata_id "doc" ∉ id <$> records.
Proof.
  eexists. split; [vm_compute; reflexivity|].
  apply (chunk_ids_unique Demo.E "one two" "doc"). vm_compute. reflexivity.
Defined.

(** Sizes of the windows: every window holds at least one token; a
    window that is not the last holds more than 1800, the last one at
    most 1800.  Two consecutive windows agree on the tokens they share,
    and a last window of at most 200 tokens lies wholly inside the
    window before it. *)
Theorem window_sizes (tokens : list nat) (k : nat) (w : nat * list nat) :
  windows tokens !! k = Some w →
  0 < length w.2
  ∧ (is_Some (windows tokens !! S k) → 1800 < length w.2)
  ∧ (windows tokens !! S k = None → length w.2 ≤ 1800)
  ∧ (∀ w', windows tokens !! S k = Some w' →
       drop 1800 w.2 = take 200 w'.2
       ∧ (length w'.2 ≤ 200 → w'.2 = drop 1800 w.2)).
Proof.
  intros Hw. apply lookup_windows in Hw as [Hlt ->]. cbn [fst snd].
  assert (Hlen : length (take 2000 (drop (k * 1800) tokens))
            = Nat.min 2000 (length tokens - k * 1800))
    by (by rewrite length_take, length_drop).
  split; [lia|]. split; [|split].
  - intros [w' Hw']. apply lookup_windows in Hw' as [Hlt' _]. lia.
  - intros Hnone.
    destruct (decide (S k * 1800 < length tokens)) as [Hlt'|Hge]; [|lia].
    assert (is_Some (windows tokens !! S k)) as [w' Hw'].
    { eexists. by apply lookup_windows. }
    by rewrite Hw' in Hnone.
  - intros w' Hw'. apply lookup_windows in Hw' as [Hlt' ->]. cbn [snd].
    assert (Hk : S k * 1800 = k * 1800 + 1800) by lia. rewrite Hk.
    assert (Hov : drop 1800 (take 2000 (drop (k * 1800) tokens))
              = take 200 (take 2000 (drop (k * 1800 + 1800) tokens)))
      by exact (window_overlap tokens (k * 1800) 1800 200).
    split; [done|]. intros Hshort. rewrite Hov.
    symmetry. by apply take_ge.
Qed.

Lemma window_sizes_witness :
  let tokens := replicate 1900 7 in
  ∃ w w', windows tokens !! 0 = Some w ∧ windows tokens !! 1 = Some w'
          ∧ 1800 < length w.2 ∧ w'.2 = drop 1800 w.2.
Proof.
  intros tokens.
  assert (H0 : windows tokens !! 0 = Some (0, take 2000 (drop 0 tokens)))
    by (vm_compute; reflexivity).
  assert (H1 : windows tokens !! 1 = Some (1800, take 2000 (drop 1800 tokens)))
    by (vm_compute; reflexivity).
  destruct (window_sizes tokens 0 _ H0) as (_ & Hbig & _ & Hnext).
  destruct (Hnext _ H1) as [_ Hinside].
  eexists _, _. split; [exact H0|]. split; [exact H1|]. split.
  - apply Hbig. by eexists.
  - apply Hinside. vm_compute. lia.
Defined.

(** ** The ledger, continued *)

Lemma ingest_and_answer_failed (E : env) (order : list nat) (req : QARequest)
    (w : world) (e : exn) :
  documents req ∉ ledger w →
  (extract_and_embed_chunks E (documents req) w).1 = inl e →
  ingest_and_answer E order req w
  = (inl e, (extract_and_embed_chunks E (documents req) w).2).
Proof.
  intros Hnot Herr. unfold ingest_and_answer.
  unfold bind at 1. unfold read_ledger. fold (ledger w).
  rewrite bool_decide_eq_false_2 by done.
  unfold bind at 1. unfold bind at 1.
  destruct (extract_and_embed_chunks E (documents req) w) as [[e'|[]] w1];
    simpl in Herr; [|done]. by injection Herr as ->.
Qed.

(** The ledger only grows, by the request's locator, and only after a
    successful ingestion: a request leaves it as it was, or appends the
    locator, which was absent and whose ingestion succeeded.  So a ledger
    without duplicates stays without duplicates. *)
Theorem ledger_append_only (E : env) (order : list nat) (req : QARequest)
    (w : world) :
  let w' := (run_hackrx E order req w).2 in
  (ledger w' = ledger w
   ∨ ((documents req ∉ ledger w)
      ∧ (extract_and_embed_chunks E (documents req) w).1 = inr tt
      ∧ ledger w' = ledger w ++ [documents req]))
  ∧ (NoDup (ledger w) → NoDup (ledger w')).
Proof.
  intros w'.
  assert (Hcases : ledger w' = ledger w
            ∨ ((documents req ∉ ledger w)
               ∧ (extract_and_embed_chunks E (documents req) w).1 = inr tt
               ∧ ledger w' = ledger w ++ [documents req])).
  { subst w'. destruct (general_path_dec req) as [Hg|Hside].
    - rewrite run_hackrx_general by done.
      destruct (decide (documents req ∈ ledger w)) as [Hin|Hnot].
      + left. destruct (ingest_and_answer_known E order req w Hin) as (t & -> & _).
        done.
      + destruct (extract_and_embed_chunks E (documents req) w).1
          as [e|[]] eqn:Hres.
        * left. rewrite (ingest_and_answer_failed E order req w e) by done.
          unfold ledger. cbn [snd].
          by destruct (pipeline_frame E (documents req) w) as [-> _].
        * right. split; [done|]. split; [done|].
          by apply ingest_and_answer_records.
    - left. destruct (quiet_side_channels E order req Hside w) as (t & -> & _).
      done. }
  split; [done|]. intros Hnd.
  destruct Hcases as [->|(Hnot & _ & ->)]; [done|].
  apply NoDup_app. split; [done|]. split.
  - intros x Hx Hx'. apply list_elem_of_singleton in Hx' as ->. done.
  - apply NoDup_singleton.
Qed.

Lemma ledger_append_only_witness :
  let req := {| documents := "http://h/notes.txt"; questions := ["what?"] |} in
  let w1 := (run_hackrx Demo.E [0] req Demo.w0).2 in
  let w2 := (run_hackrx Demo.E [0] req w1).2 in
  ledger w1 = ["http://h/notes.txt"] ∧ NoDup (ledger w2).
Proof.
  intros req w1 w2.
  assert (H1 : ledger w1 = ["http://h/notes.txt"]) by (vm_compute; reflexivity).
  split; [exact H1|].
  destruct (ledger_append_only Demo.E [0] req w1) as [_ Hnd].
  apply Hnd. rewrite H1. apply NoDup_singleton.
Defined.

(** ** The answers, continued *)

Lemma gather_go_length {A} (tasks : list (M A)) (order : list nat)
    (slots slots' : list (option A)) (w : world) :
  (gather_go tasks order slots w).1 = inr slots' →
  length slots' = length slots.
Proof.
  revert slots w. induction order as [|i order IH]; intros slots w.
  - cbn. by intros [= <-].
  - cbn [gather_go]. destruct (tasks !! i) as [t|]; [|apply IH].
    unfold bind. destruct (t w) as [[e|r] w1]; [done|].
    intros Hgo. apply IH in Hgo. by rewrite length_insert in Hgo.
Qed.

Lemma gather_length {A} (tasks : list (M A)) (order : list nat)
    (res : list A) (w : world) :
  (gather tasks order w).1 = inr res → length res = length tasks.
Proof.
  unfold gather, bind.
  destruct (gather_go tasks order (replicate (length tasks) None) w)
    as [[e|slots] w1] eqn:Hgo; [done|].
  apply (f_equal fst) in Hgo. cbn [fst] in Hgo.
  apply gather_go_length in Hgo. rewrite length_replicate in Hgo.
  destruct (mapM (λ slot, slot) slots) as [results|] eqn:Hm; [|done].
  intros [= <-]. apply length_mapM in Hm. lia.
Qed.

Lemma side_channel_result (E : env) {A} (m : M A) (f : A → string)
    (g : exn → string) (qs : list string) (w : world) :
  match (try_except (await x <- m in ret ((λ _, f x) <$> qs))
           (λ e, ret ((λ _, g e) <$> qs)) w).1 with
  | inr answers =>
      ∃ a, (answers = (λ _, a) <$> qs ∧ ∃ x, a = f x)
           ∨ (answers = (λ _, a) <$> qs ∧ ∃ e, a = g e)
  | inl e => ∃ what, e = Hang what
  end.
Proof.
  unfold try_except, bind, ret.
  destruct (m w) as [[e|x] w1]; cbn [fst].
  - destruct e; cbn [fst]; try (eexists; right; split; [done|by eexists]).
    by eexists.
  - eexists. left. split; [done|by eexists].
Qed.

(** A request that triggers a side channel never raises an exception:
    the handler returns one answer per question, all of them the same
    string, also when the lookup fails.  It neither touches the ledger
    nor the temporary files, and it runs no part of the ingestion,
    retrieval or generation: its only events are side-channel
    requests. *)
Theorem side_channel_answers (E : env) (order : list nat) (req : QARequest)
    (w : world) :
  ¬ general_path req →
  let out := run_hackrx E order req w in
  match out.1 with
  | inr answers =>
      ∃ a, answers = replicate (length (questions req)) a
  | inl e => ∃ what, e = Hang what
  end
  ∧ ledger_file out.2 = ledger_file w
  ∧ tmp_files out.2 = tmp_files w
  ∧ Forall (λ ev, ∃ u, ev = EvSideChannel u) (new_events w out.2).
Proof.
  intros Hside out.
  assert (Hrep : ∀ a : string,
            (λ _ : string, a) <$> questions req
            = replicate (length (questions req)) a).
  { intros a. by apply const_fmap. }
  assert (Hquiet : quiet (λ ev, ∃ u, ev = EvSideChannel u) (run_hackrx E order req)).
  { unfold run_hackrx.
    destruct (nonempty (questions req)
              && any_mentions "flight number" (questions req)) eqn:Hf.
    - apply quiet_try_except; [|intros; apply quiet_ret].
      apply quiet_bind; [|intros; apply quiet_ret].
      unfold run_flight_lookup.
      repeat first
        [ apply quiet_ret | apply quiet_raise | apply quiet_lift
        | apply quiet_emit; by eexists
        | apply quiet_bind; [|intros ?]
        | match goal with
          | |- quiet _ (match ?x with _ => _ end) => destruct x
          end ].
    - destruct (nonempty (questions req)
                && any_mentions "secret token" (questions req)) eqn:Hs.
      + apply quiet_try_except; [|intros; apply quiet_ret].
        apply quiet_bind; [|intros; apply quiet_ret].
        unfold fetch_secret_token.
        apply quiet_bind; [apply quiet_emit; by eexists|intros _].
        apply quiet_bind; [apply quiet_lift|intros html].
        destruct (re_search_token E html); [apply quiet_ret|apply quiet_raise].
      + destruct Hside. by split. }
  split.
  - subst out. unfold run_hackrx.
    destruct (nonempty (questions req)
              && any_mentions "flight number" (questions req)) eqn:Hf.
    + pose proof (side_channel_result E (run_flight_lookup E)
        (λ fd, "Destination: " +:+ fmt_opt fd.2 +:+ " and Flight Number: "
               +:+ fd.1)
        (λ e, "Failed to retrieve flight number: " +:+ exn_str E e)
        (questions req) w) as Hres.
      destruct (try_except _ _ w).1 as [e|answers]; [done|].
      destruct Hres as (a & [[-> _]|[-> _]]); exists a; apply Hrep.
    + destruct (nonempty (questions req)
                && any_mentions "secret token" (questions req)) eqn:Hs.
      * pose proof (side_channel_result E
          (fetch_secret_token E (documents req))
          (λ token, "Secret Token: " +:+ token)
          (λ e, "Failed to retrieve secret token: " +:+ exn_str E e)
          (questions req) w) as Hres.
        destruct (try_except _ _ w).1 as [e|answers]; [done|].
        destruct Hres as (a & [[-> _]|[-> _]]); exists a; apply Hrep.
      * destruct Hside. by split.
  - destruct (Hquiet w) as (t & Hw & Ht). subst out. rewrite Hw.
    cbn [ledger_file tmp_files with_trace]. split; [done|]. split; [done|].
    by rewrite new_events_app.
Qed.

Lemma side_channel_answers_witness :
  let req := {| documents := "http://h/page";
                questions := ["the secret token?"; "and more?"] |} in
  let E := Demo.make (inr "") DlComplete (Leaf "text/plain" "hi") (λ _, None) []
             (inl (HTTPError "404 Not Found")) in
  (run_hackrx E [] req Demo.w0).1
  = inr (replicate 2 "Failed to retrieve secret token: 404 Not Found")
  ∧ ledger_file (run_hackrx E [] req Demo.w0).2 = None.
Proof.
  intros req E.
  destruct (side_channel_answers E [] req Demo.w0) as (_ & Hledger & _).
  - intros [_ Hs]. discriminate Hs.
  - split; [vm_compute; reflexivity|exact Hledger].
Defined.

Lemma answers_phase_length (E : env) (order : list nat) (req : QARequest)
    (w : world) (answers : list string) :
  (bind (gather ((λ q, get_answer E q (documents req) 10) <$> questions req)
           order)
     (λ results, ret (snd <$> results)) w).1 = inr answers →
  length answers = length (questions req).
Proof.
  unfold bind.
  destruct (gather _ order w) as [[e|results] w1] eqn:Hg; [done|].
  apply (f_equal fst) in Hg. cbn [fst] in Hg. apply gather_length in Hg.
  cbn. intros [= <-]. by rewrite length_fmap, Hg, length_fmap.
Qed.

(** Whenever the handler returns, on any of its three paths and for any
    order in which the units finish, the answer list has exactly one
    entry per question. *)
Theorem one_answer_per_question (E : env) (order : list nat) (req : QARequest)
    (w : world) (answers : list string) :
  (run_hackrx E order req w).1 = inr answers →
  length answers = length (questions req).
Proof.
  intros Hrun. destruct (general_path_dec req) as [Hg|Hside].
  - rewrite run_hackrx_general in Hrun by done.
    unfold ingest_and_answer in Hrun.
    unfold bind at 1 in Hrun. unfold read_ledger in Hrun.
    cbn [fst snd] in Hrun. unfold bind at 1 in Hrun.
    destruct (bool_decide (documents req ∈ default [] (ledger_file w))).
    + unfold ret at 1 in Hrun. by eapply answers_phase_length.
    + unfold bind at 1 in Hrun.
      destruct (extract_and_embed_chunks E (documents req) w) as [[e|[]] w1];
        [done|].
      unfold write_ledger in Hrun. by eapply answers_phase_length.
  - destruct (side_channel_answers E order req w Hside) as [Hres _].
    rewrite Hrun in Hres. destruct Hres as [a ->].
    by rewrite length_replicate.
Qed.

Lemma one_answer_per_question_witness :
  let req := {| documents := "http://h/notes.txt";
                questions := ["one?"; "two?"; "three?"] |} in
  ∃ answers, (run_hackrx Demo.E [1; 2; 0] req Demo.w0).1 = inr answers
             ∧ length answers = 3.
Proof.
  intros req.
  assert (Hrun : (run_hackrx Demo.E [1; 2; 0] req Demo.w0).1
            = inr ["answer to one?"; "answer to two?"; "answer to three?"])
    by (vm_compute; reflexivity).
  eexists. split; [exact Hrun|].
  exact (one_answer_per_question Demo.E [1; 2; 0] req Demo.w0 _ Hrun).
Defined.

Lemma gather_nil {A} (order : list nat) (w : world) :
  gather (A:=A) [] order w = (inr [], w).
Proof.
  unfold gather, bind.
  assert (Hgo : ∀ slots, gather_go (A:=A) [] order slots w = (inr slots, w)).
  { induction order as [|i order IH]; intros slots; [done|]. apply IH. }
  by rewrite Hgo.
Qed.

(** A request without questions takes the general path: the document is
    still ingested when its locator is new, and recorded when that
    succeeds; the answer list is empty; a failing ingestion fails the
    request. *)
Theorem no_questions (E : env) (order : list nat) (req : QARequest) (w : world) :
  questions req = [] →
  let out := run_hackrx E order req w in
  (documents req ∈ ledger w → out = (inr [], w))
  ∧ (documents req ∉ ledger w →
     (extract_and_embed_chunks E (documents req) w).1 = inr tt →
     out.1 = inr [] ∧ ledger out.2 = ledger w ++ [documents req])
  ∧ (documents req ∉ ledger w → ∀ e,
     (extract_and_embed_chunks E (documents req) w).1 = inl e →
     out.1 = inl e).
Proof.
  intros Hq out.
  assert (Hg : general_path req) by (unfold general_path; by rewrite Hq).
  assert (Hout : out = ingest_and_answer E order req w)
    by (subst out; by rewrite run_hackrx_general).
  rewrite Hout. split; [|split].
  - intros Hin. unfold ingest_and_answer.
    unfold bind at 1. unfold read_ledger. fold (ledger w).
    rewrite bool_decide_eq_true_2 by done.
    unfold bind at 1. unfold ret at 1. rewrite Hq. cbn [fmap list_fmap].
    unfold bind. by rewrite gather_nil.
  - intros Hnot Hok. split; [|by apply ingest_and_answer_records].
    unfold ingest_and_answer.
    unfold bind at 1. unfold read_ledger. fold (ledger w).
    rewrite bool_decide_eq_false_2 by done.
    unfold bind at 1. unfold bind at 1.
    destruct (extract_and_embed_chunks E (documents req) w) as [[e|[]] w1];
      [done|].
    unfold write_ledger. rewrite Hq. cbn [fmap list_fmap].
    unfold bind. by rewrite gather_nil.
  - intros Hnot e Herr. by rewrite (ingest_and_answer_failed E order req w e).
Qed.

Lemma no_questions_witness :
  let req := {| documents := "http://h/notes.txt"; questions := [] |} in
  let out := run_hackrx Demo.E [3; 1] req Demo.w0 in
  out.1 = inr [] ∧ ledger out.2 = ["http://h/notes.txt"].
Proof.
  intros req out.
  destruct (no_questions Demo.E [3; 1] req Demo.w0) as (_ & Hnew & _);
    [reflexivity|].
  destruct Hnew as [Hres Hledger].
  - vm_compute. apply not_elem_of_nil.
  - vm_compute. reflexivity.
  - split; [exact Hres|exact Hledger].
Defined.

Lemma get_answer_fails (E : env) (url q : string) (w : world) :
  answer_for E url q = None → failed (get_answer E q url 10 w).1.
Proof.
  unfold answer_for, get_answer, search_chunks, bind, emit, lift, ret.
  destruct (search_reply E _) as [e|resp]; [done|]. cbn [fst snd].
  by destruct (ainvoke E q (extract_texts resp)).
Qed.

Lemma gather_go_fails {A} (tasks : list (M A)) (i : nat) (t : M A)
    (order : list nat) (slots : list (option A)) (w : world) :
  tasks !! i = Some t → (∀ w0, failed (t w0).1) → i ∈ order →
  failed (gather_go tasks order slots w).1.
Proof.
  intros Ht Hfail. revert slots w.
  induction order as [|j order IH]; intros slots w Hin.
  - by apply elem_of_nil in Hin.
  - cbn [gather_go]. destruct (decide (j = i)) as [->|Hne].
    + rewrite Ht. unfold bind. specialize (Hfail w).
      by destruct (t w) as [[e|r] w1].
    + apply elem_of_cons in Hin as [->|Hin]; [done|].
      destruct (tasks !! j) as [t'|]; [|by apply IH].
      unfold bind. destruct (t' w) as [[e|r] w1]; [done|]. by apply IH.
Qed.

(** One failing question fails the whole request: on the general path,
    once the ledger gate is passed, if retrieval or generation raises for
    a question whose unit gets to run, the handler raises and returns no
    answer at all, not even for the questions that succeeded. *)
Theorem question_failure_fails_request (E : env) (order : list nat)
    (req : QARequest) (w : world) (i : nat) (q : string) :
  general_path req →
  (documents req ∈ ledger w
   ∨ (extract_and_embed_chunks E (documents req) w).1 = inr tt) →
  questions req !! i = Some q →
  answer_for E (documents req) q = None →
  i ∈ order →
  failed (run_hackrx E order req w).1.
Proof.
  intros Hg Hgate Hq Hnone Hin.
  rewrite run_hackrx_general by done. unfold ingest_and_answer.
  set (tasks := (λ q, get_answer E q (documents req) 10) <$> questions req).
  assert (Hfin : ∀ w0,
            failed (bind (gather tasks order)
                      (λ results, ret (snd <$> results)) w0).1).
  { intros w0. unfold bind at 1. unfold gather. unfold bind at 1.
    pose proof (gather_go_fails tasks i (get_answer E q (documents req) 10)
                  order (replicate (length tasks) None) w0) as Hgo.
    destruct (gather_go tasks order (replicate (length tasks) None) w0)
      as [[e|slots] w1]; [done|].
    exfalso. apply Hgo; [|intros w2; by apply get_answer_fails|done].
    subst tasks. by rewrite list_lookup_fmap, Hq. }
  unfold bind at 1. unfold read_ledger. fold (ledger w).
  destruct (decide (documents req ∈ ledger w)) as [Hknown|Hnew].
  - rewrite bool_decide_eq_true_2 by done.
    unfold bind at 1. unfold ret at 1. apply Hfin.
  - rewrite bool_decide_eq_false_2 by done.
    destruct Hgate as [Hknown|Hok]; [done|].
    unfold bind at 1. unfold bind at 1.
    destruct (extract_and_embed_chunks E (documents req) w) as [[e|[]] w1];
      [done|].
    unfold write_ledger. apply Hfin.
Qed.

Lemma question_failure_fails_request_witness :
  let req := {| documents := "http://h/notes.txt";
                questions := ["one?"; "two?"] |} in
  let E := Env Demo.encode Demo.decode (content_disposition Demo.E)
             (http_body Demo.E) (mktemp Demo.E) (urlparse_path Demo.E)
             (unquote Demo.E) (os_path_basename Demo.E)
             (os_path_splitext Demo.E) (zip_namelist Demo.E)
             (image_to_string Demo.E) (read_excel Demo.E)
             (pptx_slides Demo.E) (pdf_pages Demo.E) (docx_paragraphs Demo.E)
             (read_text Demo.E) (message_from_binary_file Demo.E)
             (upsert_records_reply Demo.E) (search_reply Demo.E)
             (λ q _, if String.eqb q "two?"
                     then inl (GenerationError "quota") else inr "fine")
             (favourite_city Demo.E) (flight_endpoint Demo.E)
             (http_text Demo.E) (re_search_token Demo.E) (py_repr Demo.E) in
  failed (run_hackrx E [0; 1] req Demo.w0).1.
Proof.
  intros req E.
  apply (question_failure_fails_request E [0; 1] req Demo.w0 1 "two?").
  - split; reflexivity.
  - right. vm_compute. reflexivity.
  - reflexivity.
  - reflexivity.
  - apply elem_of_cons. right. apply elem_of_cons. by left.
Defined.

(** ** The flight side channel *)

Lemma startswith_app (p s : string) : Py.startswith p (p +:+ s) = true.
Proof.
  induction p as [|c p IH]; [done|].
  change (String c p +:+ s) with (String c (p +:+ s)).
  cbn [Py.startswith]. by rewrite Ascii.eqb_refl.
Qed.

Lemma choose_endpoint_known (landmarks : list string) :
  choose_endpoint landmarks
  ∈ ["getFirstCityFlightNumber"; "getSecondCityFlightNumber";
     "getThirdCityFlightNumber"; "getFourthCityFlightNumber";
     "getFifthCityFlightNumber"].
Proof.
  induction landmarks as [|lm rest IH]; cbn [choose_endpoint].
  - by apply mem_spec.
  - destruct (landmark_to_endpoint !! lm) as [key|] eqn:Hkey; [|done].
    unfold landmark_to_endpoint in Hkey.
    apply elem_of_list_to_map_2 in Hkey.
    repeat (apply elem_of_cons in Hkey as [[= -> ->]|Hkey]; [by apply mem_spec|]).
    by apply elem_of_nil in Hkey.
Qed.

Lemma run_flight_lookup_events (E : env) (w : world) :
  ∃ t, (run_flight_lookup E w).2 = with_trace w (trace w ++ t)
       ∧ (t = [city_request]
          ∨ ∃ key, key ∈ endpoint_keys ∧ t = [city_request; flight_request key]).
Proof.
  unfold run_flight_lookup, bind, emit, lift, raise, ret.
  fold city_request.
  destruct (favourite_city E) as [e|payload]; cbn [fst snd].
  { exists [city_request]. split; [done|by left]. }
  destruct (data_city payload) as [[|c city]|];
    try (exists [city_request]; split; [done|by left]).
  destruct (city_to_landmarks !! String c city) as [[|lm lms]|];
    try (exists [city_request]; split; [done|by left]).
  set (key := choose_endpoint (lm :: lms)).
  fold (flight_request key).
  assert (Htwo : ∃ t,
            with_trace w ((trace w ++ [city_request]) ++ [flight_request key])
            = with_trace w (trace w ++ t)
            ∧ (t = [city_request]
               ∨ ∃ key, key ∈ endpoint_keys
                        ∧ t = [city_request; flight_request key])).
  { exists [city_request; flight_request key]. split.
    - unfold with_trace. f_equal. by rewrite <-app_assoc.
    - right. exists key. split; [apply choose_endpoint_known|done]. }
  destruct (flight_endpoint E key) as [e|payload2]; cbn [fst snd];
    [exact Htwo|].
  destruct (data_flightNumber payload2) as [[|c' fl]|]; try exact Htwo.
  destruct (default "" (message_field payload2)) as [|m msg];
    [exact Htwo|].
  destruct (Py.split (String m msg)); exact Htwo.
Qed.

(** The flight-number trigger is tested first: when a question mentions
    "flight number", whatever else the questions mention, the handler
    sends the request for the favourite city and then at most one more
    request, to the flight endpoint of one of the five keys, and nothing
    else happens.  It returns one answer per question, all equal: the
    destination and flight the lookup returned, or the lookup's error
    after "Failed to retrieve flight number: "; a lookup that never
    completes leaves the request without a reply. *)
Theorem flight_trigger_first (E : env) (order : list nat) (req : QARequest)
    (w : world) :
  nonempty (questions req) = true →
  any_mentions "flight number" (questions req) = true →
  let out := run_hackrx E order req w in
  let look := run_flight_lookup E w in
  out.2 = look.2
  ∧ (new_events w out.2 = [city_request]
     ∨ ∃ key, key ∈ endpoint_keys
              ∧ new_events w out.2 = [city_request; flight_request key])
  ∧ (∀ flight dest, look.1 = inr (flight, dest) →
       out.1 = inr (replicate (length (questions req))
                      ("Destination: " +:+ fmt_opt dest
                       +:+ " and Flight Number: " +:+ flight)))
  ∧ (∀ e, look.1 = inl e → (∀ what, e ≠ Hang what) →
       out.1 = inr (replicate (length (questions req))
                      ("Failed to retrieve flight number: " +:+ exn_str E e)))
  ∧ (∀ what, look.1 = inl (Hang what) → out.1 = inl (Hang what))
  ∧ match out.1 with
    | inr answers =>
        ∃ a, answers = replicate (length (questions req)) a
             ∧ (Py.startswith "Destination: " a = true
                ∨ Py.startswith "Failed to retrieve flight number: " a = true)
    | inl e => ∃ what, e = Hang what
    end.
Proof.
  intros Hne Hany out look.
  assert (Hrep : ∀ a : string,
            (λ _ : string, a) <$> questions req
            = replicate (length (questions req)) a).
  { intros a. by apply const_fmap. }
  subst out look. unfold run_hackrx. rewrite Hne, Hany. cbn [andb].
  unfold try_except, bind, ret.
  destruct (run_flight_lookup_events E w) as (t & Hw & Ht).
  destruct (run_flight_lookup E w) as [[e|[flight dest]] w1];
    cbn [fst snd] in *; subst w1.
  - assert (Hcaught : ∀ res : exn + list string,
              res = inr ((λ _ : string,
                            "Failed to retrieve flight number: " +:+ exn_str E e)
                           <$> questions req) →
              (∀ what, e ≠ Hang what) →
              (res, with_trace w (trace w ++ t)).2 = with_trace w (trace w ++ t)
              ∧ (new_events w (res, with_trace w (trace w ++ t)).2
                 = [city_request]
                 ∨ ∃ key, key ∈ endpoint_keys
                          ∧ new_events w (res, with_trace w (trace w ++ t)).2
                            = [city_request; flight_request key])
              ∧ (∀ flight dest, @inl exn (string * option string) e
                                = inr (flight, dest) →
                   (res, with_trace w (trace w ++ t)).1
                   = inr (replicate (length (questions req))
                            ("Destination: " +:+ fmt_opt dest
                             +:+ " and Flight Number: " +:+ flight)))
              ∧ (∀ e', @inl exn (string * option string) e = inl e' →
                   (∀ what, e' ≠ Hang what) →
                   (res, with_trace w (trace w ++ t)).1
                   = inr (replicate (length (questions req))
                            ("Failed to retrieve flight number: "
                             +:+ exn_str E e')))
              ∧ (∀ what, @inl exn (string * option string) e = inl (Hang what) →
                   (res, with_trace w (trace w ++ t)).1 = inl (Hang what))
              ∧ match (res, with_trace w (trace w ++ t)).1 with
                | inr answers =>
                    ∃ a, answers = replicate (length (questions req)) a
                         ∧ (Py.startswith "Destination: " a = true
                            ∨ Py.startswith
                                "Failed to retrieve flight number: " a = true)
                | inl e => ∃ what, e = Hang what
                end).
    { intros res -> Hnh. cbn [fst snd]. rewrite new_events_app.
      split; [done|]. split; [exact Ht|]. split; [done|].
      split; [intros e' [= <-] _; by rewrite Hrep|].
      split; [intros what [= ->]; by destruct (Hnh what)|].
      eexists. split; [apply Hrep|]. right. apply startswith_app. }
    destruct e; try (apply Hcaught; [reflexivity|done]).
    cbn [fst snd]. rewrite new_events_app.
    split; [done|]. split; [exact Ht|]. split; [done|].
    split; [intros e' [= <-] Hnh; by destruct (Hnh what)|].
    split; [by intros what' [= <-]|]. by eexists.
  - rewrite new_events_app. split; [done|]. split; [exact Ht|].
    split; [intros f d [= <- <-]; by rewrite Hrep|].
    split; [done|]. split; [done|].
    eexists. split; [apply Hrep|]. left. apply startswith_app.
Qed.

Lemma flight_trigger_first_witness :
  let req := {| documents := "http://h/page";
                questions := ["What is the secret token?";
                              "What is my Flight Number?"] |} in
  let out := run_hackrx Demo.E [] req Demo.w0 in
  (new_events Demo.w0 out.2 = [city_request]
   ∨ ∃ key, key ∈ endpoint_keys
            ∧ new_events Demo.w0 out.2 = [city_request; flight_request key])
  ∧ match out.1 with
    | inr answers => length answers = 2
    | inl _ => False
    end.
Proof.
  intros req out.
  destruct (flight_trigger_first Demo.E [] req Demo.w0)
    as (_ & Hev & _ & _ & _ & _); [reflexivity|reflexivity|].
  split; [exact Hev|]. vm_compute. reflexivity.
Defined.

(** What [run_flight_lookup] returns and how it fails: a returned flight
    number is never empty and a returned destination is one word; a
    reply without a city, or with an empty one, raises after the first
    request only; and the second request goes to one of the five known
    endpoints. *)
Theorem flight_lookup_result (E : env) (w : world) :
  let out := run_flight_lookup E w in
  (∀ flight dest, out.1 = inr (flight, dest) →
     flight ≠ "" ∧ ∀ d, dest = Some d → word d)
  ∧ (∀ payload, favourite_city E = inr payload →
       data_city payload = None ∨ data_city payload = Some "" →
       out.1 = inl (RuntimeError "API did not return a city name")
       ∧ length (new_events w out.2) = 1)
  ∧ (∀ ev, ev ∈ new_events w out.2 →
       ev = EvSideChannel "https://register.hackrx.in/submissions/myFavouriteCity"
       ∨ ∃ key, ev = EvSideChannel
                       ("https://register.hackrx.in/teams/public/flights/" +:+ key)
                ∧ key ∈ ["getFirstCityFlightNumber"; "getSecondCityFlightNumber";
                         "getThirdCityFlightNumber"; "getFourthCityFlightNumber";
                         "getFifthCityFlightNumber"]).
Proof.
  intros out. subst out.
  unfold run_flight_lookup, bind, emit, lift, raise, ret.
  set (ev1 := EvSideChannel "https://register.hackrx.in/submissions/myFavouriteCity").
  assert (Hone : ∀ ev, ev ∈ new_events w
              (World (ledger_file w) (tmp_files w) (trace w ++ [ev1])) →
            ev = ev1 ∨ ∃ key, ev = EvSideChannel
                       ("https://register.hackrx.in/teams/public/flights/" +:+ key)
                ∧ key ∈ ["getFirstCityFlightNumber"; "getSecondCityFlightNumber";
                         "getThirdCityFlightNumber"; "getFourthCityFlightNumber";
                         "getFifthCityFlightNumber"]).
  { intros ev Hev.
    change (World (ledger_file w) (tmp_files w) (trace w ++ [ev1]))
      with (with_trace w (trace w ++ [ev1])) in Hev.
    rewrite new_events_app in Hev.
    apply list_elem_of_singleton in Hev as ->. by left. }
  destruct (favourite_city E) as [e|payload]; cbn [fst snd].
  { split; [done|]. split; [done|]. exact Hone. }
  destruct (data_city payload) as [[|c city]|] eqn:Hcity.
  - split; [done|]. split; [|exact Hone].
    intros p [= <-] _. split; [done|].
    unfold new_events. cbn [snd trace]. by rewrite drop_app_length.
  - split; [|split].
    + destruct (city_to_landmarks !! String c city) as [[|lm lms]|]; [done| |done].
      cbn [fst snd].
      destruct (flight_endpoint E (choose_endpoint (lm :: lms))) as [e|p2];
        [done|]. cbn [fst snd].
      destruct (data_flightNumber p2) as [[|c' fl]|]; [done| |done].
      destruct (default "" (message_field p2)) as [|m msg] eqn:Hmsg.
      * intros flight dest [= <- <-]. split; [done|]. by intros d.
      * destruct (Py.split (String m msg)) as [|first rest] eqn:Hsplit; [done|].
        intros flight dest [= <- <-]. split; [done|].
        intros d [= <-].
        pose proof (proj1 (split_normalize (String m msg))) as Hwords.
        rewrite Hsplit in Hwords. by apply Forall_cons_1 in Hwords as [? _].
    + intros p [= <-]. rewrite Hcity. by intros [|].
    + destruct (city_to_landmarks !! String c city) as [[|lm lms]|];
        [exact Hone| |exact Hone].
      cbn [fst snd].
      set (key := choose_endpoint (lm :: lms)).
      assert (Htwo : ∀ ev,
                ev ∈ new_events w
                  (World (ledger_file w) (tmp_files w)
                    ((trace w ++ [ev1]) ++
                     [EvSideChannel
                        ("https://register.hackrx.in/teams/public/flights/"
                         +:+ key)])) →
                ev = ev1 ∨ ∃ key, ev = EvSideChannel
                       ("https://register.hackrx.in/teams/public/flights/" +:+ key)
                ∧ key ∈ ["getFirstCityFlightNumber"; "getSecondCityFlightNumber";
                         "getThirdCityFlightNumber"; "getFourthCityFlightNumber";
                         "getFifthCityFlightNumber"]).
      { intros ev. unfold new_events. cbn [snd trace].
        rewrite <-app_assoc, drop_app_length.
        intros [->|Hev]%elem_of_cons; [by left|].
        apply list_elem_of_singleton in Hev as ->. right.
        exists key. split; [done|]. apply choose_endpoint_known. }
      destruct (flight_endpoint E key) as [e|p2]; cbn [fst snd];
        [exact Htwo|].
      destruct (data_flightNumber p2) as [[|c' fl]|]; try exact Htwo.
      destruct (default "" (message_field p2)) as [|m msg]; [exact Htwo|].
      destruct (Py.split (String m msg)); exact Htwo.
  - split; [done|]. split; [|exact Hone].
    intros p [= <-] _. split; [done|].
    unfold new_events. cbn [snd trace]. by rewrite drop_app_length.
Qed.

Lemma flight_lookup_result_witness :
  (run_flight_lookup Demo.E Demo.w0).1 = inr ("AB123", Some "Paris")
  ∧ word "Paris".
Proof.
  assert (Hrun : (run_flight_lookup Demo.E Demo.w0).1
                 = inr ("AB123", Some "Paris")) by (vm_compute; reflexivity).
  split; [exact Hrun|].
  destruct (flight_lookup_result Demo.E Demo.w0) as [Hok _].
  destruct (Hok "AB123" (Some "Paris") Hrun) as [_ Hword].
  by apply Hword.
Defined.

(** ** E-mail extraction, continued *)



(** ** The extension resolver *)

Lemma lower_char_idemp (c : ascii) :
  Py.lower_char (Py.lower_char c) = Py.lower_char c.
Proof. destruct c as [[] [] [] [] [] [] [] []]; reflexivity. Qed.

Lemma lower_idemp (s : string) : Py.lower (Py.lower s) = Py.lower s.
Proof.
  induction s as [|c s IH]; [done|].
  cbn [Py.lower]. by rewrite lower_char_idemp, IH.
Qed.

(** The resolver makes one request.  When it fails, its error is passed
    on; when it succeeds, the suffix returned is lower case; without a
    "filename=" in the Content-Disposition header the suffix is that of
    the path of the locator, and with one it is that of the text after
    the last "filename=", quotes stripped, whatever the path says. *)
Theorem get_url_extension_result (E : env) (url : string) (w : world) :
  let out := get_url_extension E url w in
  new_events w out.2 = [EvProbe url]
  ∧ (∀ e, content_disposition E url = inl e → out.1 = inl e)
  ∧ (∀ ext, out.1 = inr ext → Py.lower ext = ext)
  ∧ (∀ cd, content_disposition E url = inr cd →
       Py.contains "filename=" cd = false →
       out.1 = inr (Py.lower (os_path_splitext E (urlparse_path E url)).2))
  ∧ (∀ cd, content_disposition E url = inr cd →
       Py.contains "filename=" cd = true →
       out.1 = inr (Py.lower (os_path_splitext E
                      (Py.strip_chars quote
                         (default "" (last (Py.split_sep "filename=" cd))))).2)).
Proof.
  intros out. subst out. rewrite get_url_extension_world, new_events_app.
  split; [done|].
  unfold get_url_extension, bind, emit, lift, ret.
  destruct (content_disposition E url) as [e|cd]; cbn [fst snd].
  - split; [by intros e' [= <-]|]. split; [done|]. split; by intros cd [=].
  - split; [done|].
    destruct (Py.contains "filename=" cd) eqn:Hcd; cbn [fst snd].
    + split; [intros ext [= <-]; apply lower_idemp|].
      split; [intros cd' [= <-] Hf; congruence|]. by intros cd' [= <-] _.
    + split; [intros ext [= <-]; apply lower_idemp|].
      split; [by intros cd' [= <-] _|]. intros cd' [= <-] Hf; congruence.
Qed.

Lemma get_url_extension_result_witness :
  let cd := "attachment; filename=" +:+ quote +:+ "Report.PDF" +:+ quote in
  let E := Demo.make (inr cd) DlComplete (Leaf "text/plain" "hi") (λ _, None)
             [] (inr "") in
  (get_url_extension E "http://h/download?id=7" Demo.w0).1 = inr ".pdf"
  ∧ Py.lower ".pdf" = ".pdf".
Proof.
  intros cd E.
  assert (Hrun : (get_url_extension E "http://h/download?id=7" Demo.w0).1
                 = inr ".pdf") by (vm_compute; reflexivity).
  split; [exact Hrun|].
  destruct (get_url_extension_result E "http://h/download?id=7" Demo.w0)
    as (_ & _ & Hlower & _).
  exact (Hlower ".pdf" Hrun).
Defined.

(** ** Whitespace-only text *)

Lemma split_blank (s : string) : blank s = true → Py.split s = [].
Proof.
  unfold Py.split. induction s as [|c s IH]; [done|].
  cbn [blank Py.split_go]. intros [Hc Hs]%andb_true_iff.
  rewrite Hc. by apply IH.
Qed.

(** Normalising twice is normalising once, and a text of whitespace only
    normalises to the empty string.  Such a text, when the tokenizer
    gives no token for the empty string, yields no chunk: the chunker
    succeeds without calling the store. *)
Theorem blank_text_no_chunk (E : env) (doc_text basename doc_url : string)
    (w : world) :
  normalize (normalize doc_text) = normalize doc_text
  ∧ (blank doc_text = true →
     normalize doc_text = ""
     ∧ (enc_encode E "" = inr [] →
        chunk_records E doc_text basename = inr []
        ∧ _chunk_and_upsert E doc_text basename doc_url w
          = (inr tt, with_trace w (trace w ++ [EvChunk basename])))).
Proof.
  split.
  - unfold normalize at 1. by rewrite (proj2 (split_normalize doc_text)).
  - intros Hblank.
    assert (Hnorm : normalize doc_text = "")
      by (unfold normalize; by rewrite split_blank).
    split; [done|]. intros Henc.
    assert (Hnone : chunk_records E doc_text basename = inr []).
    { unfold chunk_records. by rewrite Hnorm, Henc. }
    split; [done|]. unfold _chunk_and_upsert. by rewrite Hnone.
Qed.

Lemma blank_text_no_chunk_witness :
  let doc_text := " " +:+ nl +:+ "  " in
  chunk_records Demo.E doc_text "doc" = inr []
  ∧ (_chunk_and_upsert Demo.E doc_text "doc" "u" Demo.w0).1 = inr tt.
Proof.
  intros doc_text.
  destruct (blank_text_no_chunk Demo.E doc_text "doc" "u" Demo.w0)
    as [_ Hblank].
  destruct Hblank as [_ Hrun]; [reflexivity|].
  destruct Hrun as [Hnone Hres]; [reflexivity|].
  split; [exact Hnone|]. by rewrite Hres.
Defined.

(** ** The batcher, whatever the store replies *)

(** Whatever the store replies, the calls [upsert_chunks] issues are the
    first batches of its input, in order and without a gap; each carries
    at most 96 records, every record carries the document locator, and
    nothing but these calls is done. *)
Theorem upsert_calls_prefix (E : env) (chunks : list chunk) (source_url : string)
    (w : world) :
  let records := enrich source_url <$> chunks in
  let out := upsert_chunks E chunks source_url w in
  let calls := upsert_calls (new_events w out.2) in
  (∃ n, calls = take n (batches records))
  ∧ new_events w out.2 = EvUpsert <$> calls
  ∧ Forall (λ b, length b ≤ 96
                 ∧ Forall (λ r, rec_doc_url r = source_url) b) calls
  ∧ ledger_file out.2 = ledger_file w ∧ tmp_files out.2 = tmp_files w.
Proof.
  intros records out calls.
  set (f := λ i, Py.slice records i (i + MAX_BATCH)).
  destruct (for_each_upsert_prefix E f
              (Py.range (length records) MAX_BATCH) w) as (n & Hn).
  assert (Hw : out.2 = with_trace w (trace w ++
                  (EvUpsert <$> take n (batches records)))).
  { subst out.
    change (upsert_chunks E chunks source_url w)
      with (for_each (Py.range (length records) MAX_BATCH)
              (λ i, upsert_records E (f i)) w).
    rewrite Hn. unfold batches. fold f. by rewrite fmap_take. }
  assert (Hcalls : calls = take n (batches records)).
  { subst calls. by rewrite Hw, new_events_app, upsert_calls_upserts. }
  rewrite Hcalls, Hw, new_events_app.
  split; [by exists n|]. split; [done|]. split; [|done].
  apply Forall_take, Forall_forall. intros b Hb.
  unfold batches in Hb. apply list_elem_of_fmap in Hb as (i & -> & _).
  split.
  - unfold Py.slice. rewrite length_take. unfold MAX_BATCH. lia.
  - unfold Py.slice. apply Forall_take, Forall_drop.
    subst records. apply Forall_fmap, Forall_forall. by intros c _.
Qed.

(** ** Decoder failures and the text path *)

(** When the decoder of a format rejects the file, the handler raises the
    decoder's error right after the read: the tokenizer is not run and
    nothing is sent to the store. *)
Theorem decoder_failure_sends_nothing (E : env)
    (temp_path basename ext doc_url : string) (e : exn) (w : world) :
  let stopped := (inl e, with_trace w (trace w ++ [EvExtract temp_path])) in
  (zip_namelist E temp_path = inl e →
     handle_zip_stub E temp_path basename doc_url w = stopped)
  ∧ (image_to_string E temp_path = inl e →
     handle_image_ocr E temp_path basename ext doc_url w = stopped)
  ∧ (read_excel E temp_path = inl e →
     handle_xlsx E temp_path basename doc_url w = stopped)
  ∧ (pptx_slides E temp_path = inl e →
     handle_pptx E temp_path basename doc_url w = stopped)
  ∧ (pdf_pages E temp_path = inl e →
     run_handler E TextDoc temp_path basename ".pdf" doc_url w = stopped)
  ∧ (docx_paragraphs E temp_path = inl e →
     run_handler E TextDoc temp_path basename ".docx" doc_url w = stopped)
  ∧ (read_text E temp_path = inl e →
     run_handler E TextDoc temp_path basename ".txt" doc_url w = stopped)
  ∧ (message_from_binary_file E temp_path = inl e →
     run_handler E TextDoc temp_path basename ".eml" doc_url w = stopped).
Proof.
  intros stopped. subst stopped.
  unfold handle_zip_stub, handle_image_ocr, handle_xlsx, handle_pptx,
    run_handler, extract_text_file, bind, emit, lift.
  cbn [String.eqb Ascii.eqb Bool.eqb fst snd].
  repeat split; by intros ->.
Qed.

Lemma decoder_failure_sends_nothing_witness :
  let E := Env Demo.encode Demo.decode (content_disposition Demo.E)
             (http_body Demo.E) (mktemp Demo.E) (urlparse_path Demo.E)
             (unquote Demo.E) (os_path_basename Demo.E)
             (os_path_splitext Demo.E)
             (λ _, inl (DecoderError "File is not a zip file"))
             (image_to_string Demo.E) (read_excel Demo.E)
             (pptx_slides Demo.E) (pdf_pages Demo.E) (docx_paragraphs Demo.E)
             (read_text Demo.E) (message_from_binary_file Demo.E)
             (upsert_records_reply Demo.E) (search_reply Demo.E)
             (ainvoke Demo.E) (favourite_city Demo.E) (flight_endpoint Demo.E)
             (http_text Demo.E) (re_search_token Demo.E) (py_repr Demo.E) in
  handle_zip_stub E "/tmp/tmp0.zip" "pack" "http://h/pack.zip" Demo.w0
  = (inl (DecoderError "File is not a zip file"),
     with_trace Demo.w0 [EvExtract "/tmp/tmp0.zip"]).
Proof.
  intros E.
  destruct (decoder_failure_sends_nothing E "/tmp/tmp0.zip" "pack" ".zip"
              "http://h/pack.zip" (DecoderError "File is not a zip file")
              Demo.w0) as [Hzip _].
  by apply Hzip.
Defined.

(** The archive stub: the handler lists the entries without opening any
    of them and sends exactly one record, with id "<basename>::metadata",
    whose text gives the number of entries and their names separated by
    ", ". *)
Theorem zip_stub_record (E : env) (temp_path basename doc_url : string)
    (entries : list string) (w : world) :
  zip_namelist E temp_path = inr entries →
  let r := stub_record basename
             ("Archive contains " +:+ Py.str_of_nat (length entries)
              +:+ " files: " +:+ Py.join ", " entries) doc_url in
  let out := handle_zip_stub E temp_path basename doc_url w in
  new_events w out.2 = [EvExtract temp_path; EvUpsert [r]]
  ∧ out.1 = match upsert_records_reply E [r] with
            | None => inr tt
            | Some e => inl e
            end.
Proof.
  intros Hzip r out.
  assert (Hrun : out = (match upsert_records_reply E [r] with
                        | None => inr tt
                        | Some e => inl e
                        end,
                        with_trace w (trace w ++ [EvExtract temp_path; EvUpsert [r]]))).
  { subst out. unfold handle_zip_stub. unfold bind at 1. unfold emit.
    unfold bind at 1. unfold lift. rewrite Hzip. rewrite upsert_one.
    unfold with_trace. cbn [ledger_file tmp_files trace].
    by rewrite <-app_assoc. }
  rewrite Hrun. cbn [fst snd]. by rewrite new_events_app.
Qed.

Lemma zip_stub_record_witness :
  new_events Demo.w0
    (handle_zip_stub Demo.E "/tmp/tmp0.zip" "pack" "http://h/pack.zip" Demo.w0).2
  = [EvExtract "/tmp/tmp0.zip";
     EvUpsert [stub_record "pack" "Archive contains 2 files: a.txt, b.txt"
                 "http://h/pack.zip"]].
Proof.
  destruct (zip_stub_record Demo.E "/tmp/tmp0.zip" "pack" "http://h/pack.zip"
              ["a.txt"; "b.txt"] Demo.w0) as [Hev _]; [reflexivity|].
  exact Hev.
Defined.

(** A plain-text document, end to end once its suffix is resolved, when
    the download completes and the file is read.  If the tokenizer
    accepts the text and the store acknowledges every batch, the pipeline
    succeeds and does, in this order and nothing else: the download, the
    creation of the temporary file, the read, the chunking, one upsert
    per batch of the chunk records, and the removal of the temporary
    file.  If the tokenizer refuses the text, the pipeline fails with the
    tokenizer's error, sends nothing to the store and still removes the
    temporary file. *)
Theorem txt_ingestion (E : env) (doc_url doc_text : string) (w : world) :
  let path := mktemp E (tmp_files w) ".txt" in
  let basename := basename_of E doc_url in
  http_body E doc_url = DlComplete →
  read_text E path = inr doc_text →
  let out := ingest_as E ".txt" doc_url w in
  (∀ chunks, chunk_records E doc_text basename = inr chunks →
     let records := enrich doc_url <$> chunks in
     (∀ b, b ∈ batches records → upsert_records_reply E b = None) →
     out.1 = inr tt
     ∧ new_events w out.2
       = [EvDownload doc_url; EvCreateTemp path; EvExtract path;
          EvChunk basename]
         ++ (EvUpsert <$> batches records) ++ [EvRemove path])
  ∧ (∀ e, chunk_records E doc_text basename = inl e →
       out.1 = inl e
       ∧ new_events w out.2
         = [EvDownload doc_url; EvCreateTemp path; EvExtract path;
            EvChunk basename; EvRemove path]).
Proof.
  intros path basename Hbody Hread out.
  assert (Hext : ".txt" ≠ ".bin") by discriminate.
  destruct (ingest_as_complete E ".txt" doc_url w Hext Hbody)
    as (t & Hw2 & _ & Hrun).
  fold path basename in Hw2, Hrun.
  set (w1 := opened E ".txt" doc_url w) in *.
  assert (Hstart : dispatch E path basename ".txt" doc_url w1
            = _chunk_and_upsert E doc_text basename doc_url
                (with_trace w1 (trace w1 ++ [EvExtract path]))).
  { unfold dispatch. cbn [mem existsb String.eqb Ascii.eqb Bool.eqb orb
      ARCHIVE_EXTS IMAGE_EXTS EXCEL_EXTS PPTX_EXTS TEXT_EXTS].
    unfold extract_text_file. cbn [String.eqb Ascii.eqb Bool.eqb].
    unfold bind at 1. unfold bind at 1. unfold emit at 1.
    unfold lift. by rewrite Hread. }
  split.
  - intros chunks Hchunks records Hack.
    assert (Hdisp : dispatch E path basename ".txt" doc_url w1
              = (inr tt, with_trace w1 (trace w1 ++
                   [EvExtract path; EvChunk basename]
                   ++ (EvUpsert <$> batches records)))).
    { rewrite Hstart. unfold _chunk_and_upsert.
      unfold bind at 1. unfold emit at 1.
      unfold bind at 1. unfold lift. rewrite Hchunks.
      unfold upsert_chunks. fold records.
      rewrite (for_each_upsert E (λ i, Py.slice records i (i + MAX_BATCH))).
      - f_equal. unfold with_trace, batches. cbn [ledger_file tmp_files trace].
        f_equal. by rewrite <-!app_assoc.
      - intros i Hi. apply Hack. unfold batches.
        apply list_elem_of_fmap. by exists i. }
    rewrite Hdisp in Hw2, Hrun. cbn [fst snd] in Hw2, Hrun.
    apply (f_equal trace) in Hw2. cbn [trace with_trace] in Hw2.
    apply app_inv_head in Hw2. subst t.
    subst out. rewrite Hrun. cbn [fst snd]. split; [done|].
    unfold new_events, w1, opened. cbn [trace]. fold path.
    rewrite <-!app_assoc, drop_app_length. done.
  - intros e Herr.
    assert (Hdisp : dispatch E path basename ".txt" doc_url w1
              = (inl e, with_trace w1 (trace w1 ++
                   [EvExtract path; EvChunk basename]))).
    { rewrite Hstart. unfold _chunk_and_upsert.
      unfold bind at 1. unfold emit at 1.
      unfold bind at 1. unfold lift. rewrite Herr.
      f_equal. unfold with_trace. cbn [ledger_file tmp_files trace].
      f_equal. by rewrite <-!app_assoc. }
    rewrite Hdisp in Hw2, Hrun. cbn [fst snd] in Hw2, Hrun.
    apply (f_equal trace) in Hw2. cbn [trace with_trace] in Hw2.
    apply app_inv_head in Hw2. subst t.
    subst out. rewrite Hrun. cbn [fst snd]. split; [done|].
    unfold new_events, w1, opened. cbn [trace]. fold path.
    rewrite <-!app_assoc, drop_app_length. done.
Qed.

Lemma txt_ingestion_witness :
  let out := ingest_as Demo.E ".txt" "http://h/notes.txt" Demo.w0 in
  out.1 = inr tt
  ∧ new_events Demo.w0 out.2
    = [EvDownload "http://h/notes.txt"; EvCreateTemp "/tmp/tmp0.txt";
       EvExtract "/tmp/tmp0.txt"; EvChunk "notes";
       EvUpsert [StoreRecord "notes::chunk_0" "some plain text"
                   "http://h/notes.txt"];
       EvRemove "/tmp/tmp0.txt"].
Proof.
  intros out.
  destruct (txt_ingestion Demo.E "http://h/notes.txt" "some plain   text"
              Demo.w0) as [Hok _]; [reflexivity|reflexivity|].
  destruct (Hok [Chunk "notes::chunk_0" "some plain text"]) as [Hres Hev];
    [vm_compute; reflexivity|intros b _; reflexivity|].
  split; [exact Hres|]. fold out in Hev. rewrite Hev.
  vm_compute. reflexivity.
Defined.

(** ** Stripped answers *)

Lemma append_assoc (x y z : string) : (x +:+ y) +:+ z = x +:+ (y +:+ z).
Proof.
  induction x as [|c x IH]; [done|].
  change ((String c x +:+ y) +:+ z) with (String c ((x +:+ y) +:+ z)).
  by rewrite IH.
Qed.

Lemma rev_str_acc (s acc : string) :
  Py.rev_str acc s = Py.rev_str "" s +:+ acc.
Proof.
  revert acc. induction s as [|c s IH]; intros acc; [done|].
  cbn [Py.rev_str]. rewrite (IH (String c acc)), (IH (String c "")).
  by rewrite append_assoc.
Qed.

Lemma rev_str_app (x y : string) :
  Py.rev_str "" (x +:+ y) = Py.rev_str "" y +:+ Py.rev_str "" x.
Proof.
  induction x as [|c x IH].
  - by rewrite append_empty_r.
  - change (String c x +:+ y) with (String c (x +:+ y)).
    cbn [Py.rev_str]. rewrite (rev_str_acc (x +:+ y)), (rev_str_acc x), IH.
    by rewrite append_assoc.
Qed.

Lemma lstrip_idemp (s : string) : Py.lstrip (Py.lstrip s) = Py.lstrip s.
Proof.
  induction s as [|c s IH]; [done|]. cbn [Py.lstrip].
  destruct (Py.is_space c) eqn:Hc; [done|]. cbn [Py.lstrip]. by rewrite Hc.
Qed.

Lemma lstrip_split (s : string) :
  ∃ sp, s = sp +:+ Py.lstrip s ∧ blank sp = true.
Proof.
  induction s as [|c s (sp & Hs & Hsp)]; [by exists ""|].
  cbn [Py.lstrip]. destruct (Py.is_space c) eqn:Hc.
  - exists (String c sp). split.
    + change (String c sp +:+ Py.lstrip s) with (String c (sp +:+ Py.lstrip s)).
      by rewrite <-Hs.
    + cbn [blank]. by rewrite Hc, Hsp.
  - by exists "".
Qed.

Lemma length_lstrip (s : string) :
  String.length (Py.lstrip s) ≤ String.length s.
Proof.
  induction s as [|c s IH]; [done|]. cbn [Py.lstrip].
  destruct (Py.is_space c); cbn [String.length]; lia.
Qed.

Lemma lstrip_prefix_fixed (x y : string) :
  x ≠ "" → Py.lstrip (x +:+ y) = x +:+ y → Py.lstrip x = x.
Proof.
  destruct x as [|c x]; [done|]. intros _.
  change (String c x +:+ y) with (String c (x +:+ y)).
  cbn [Py.lstrip]. destruct (Py.is_space c); [|done].
  intros Heq. apply (f_equal String.length) in Heq.
  pose proof (length_lstrip (x +:+ y)). cbn [String.length] in Heq. lia.
Qed.

Lemma strip_trimmed (s : string) : trimmed (Py.strip s).
Proof.
  unfold trimmed, Py.strip.
  set (a := Py.lstrip s). set (b := Py.lstrip (Py.rev_str "" a)).
  split; [|by rewrite rev_str_rev_str; apply lstrip_idemp].
  destruct (lstrip_split (Py.rev_str "" a)) as (sp & Hsplit & _). fold b in Hsplit.
  assert (Ha : a = Py.rev_str "" b +:+ Py.rev_str "" sp).
  { rewrite <-rev_str_app, <-Hsplit. by rewrite rev_str_rev_str. }
  destruct b as [|c b'] eqn:Hb; [done|].
  apply (lstrip_prefix_fixed _ (Py.rev_str "" sp)).
  - cbn [Py.rev_str]. by apply rev_str_nonempty.
  - rewrite <-Ha. apply lstrip_idemp.
Qed.

(** The answer of a unit is paired with its own question, and its text
    neither begins nor ends with whitespace; stripping it again changes
    nothing. *)
Theorem answers_trimmed (E : env) (q doc_url : string) (top_k : nat)
    (w : world) (q' a : string) :
  (get_answer E q doc_url top_k w).1 = inr (q', a) →
  q' = q ∧ trimmed a ∧ Py.strip a = a.
Proof.
  unfold get_answer, search_chunks, bind, emit, lift, ret.
  destruct (search_reply E _) as [e|resp]; [done|]. cbn [fst snd].
  destruct (ainvoke E q (extract_texts resp)) as [e|txt]; [done|].
  intros [= <- <-]. split; [done|].
  pose proof (strip_trimmed txt) as Ht. split; [done|].
  destruct Ht as [Hl Hr]. unfold Py.strip at 1.
  by rewrite Hl, Hr, rev_str_rev_str.
Qed.

Lemma answers_trimmed_witness :
  (get_answer Demo.E "why?" "http://h/notes.txt" 10 Demo.w0).1
  = inr ("why?", "answer to why?")
  ∧ trimmed "answer to why?".
Proof.
  assert (Hrun : (get_answer Demo.E "why?" "http://h/notes.txt" 10 Demo.w0).1
                 = inr ("why?", "answer to why?")) by (vm_compute; reflexivity).
  split; [exact Hrun|].
  exact (proj1 (proj2 (answers_trimmed _ _ _ _ _ _ _ Hrun))).
Defined.

(** ** The triggers, in any letter case *)

Lemma lower_app (x y : string) :
  Py.lower (x +:+ y) = Py.lower x +:+ Py.lower y.
Proof.
  induction x as [|c x IH]; [done|].
  change (String c x +:+ y) with (String c (x +:+ y)).
  cbn [Py.lower]. by rewrite IH.
Qed.

Lemma contains_startswith (p s : string) :
  Py.startswith p s = true → Py.contains p s = true.
Proof. intros Hp. destruct s; cbn [Py.contains]; by rewrite Hp. Qed.

Lemma contains_app (p a b : string) : Py.contains p (a +:+ p +:+ b) = true.
Proof.
  induction a as [|c a IH].
  - change ("" +:+ p +:+ b) with (p +:+ b).
    apply contains_startswith, startswith_app.
  - change (String c a +:+ p +:+ b) with (String c (a +:+ p +:+ b)).
    cbn [Py.contains]. rewrite IH. apply orb_true_r.
Qed.

(** A trigger phrase fires in any letter case and anywhere in the batch:
    if some question contains a text whose lower-case form is the phrase,
    the batch mentions the phrase; so for the two phrases of the handler
    the request leaves the general path. *)
Theorem trigger_any_case (phrase a x b : string) (before after : list string)
    (doc_url : string) :
  Py.lower x = phrase →
  let qs := before ++ (a +:+ x +:+ b) :: after in
  any_mentions phrase qs = true
  ∧ nonempty qs = true
  ∧ (phrase = "flight number" ∨ phrase = "secret token" →
     ¬ general_path {| documents := doc_url; questions := qs |}).
Proof.
  intros Hx qs.
  assert (Hany : any_mentions phrase qs = true).
  { unfold any_mentions, qs. rewrite existsb_app. cbn [existsb].
    rewrite !lower_app, Hx, contains_app. cbn [orb]. apply orb_true_r. }
  assert (Hne : nonempty qs = true) by (unfold qs; by destruct before).
  split; [done|]. split; [done|].
  intros [->| ->] [Hf Hs]; cbn [questions] in Hf, Hs.
  - by rewrite Hne, Hany in Hf.
  - by rewrite Hne, Hany in Hs.
Qed.

Lemma trigger_any_case_witness :
  any_mentions "secret token"
    ["Who wrote it?"; "Tell me the " +:+ "SeCrEt ToKeN" +:+ " please"] = true.
Proof.
  destruct (trigger_any_case "secret token" "Tell me the " "SeCrEt ToKeN"
              " please" ["Who wrote it?"] [] "http://h/page") as [Hany _];
    [reflexivity|].
  exact Hany.
Defined.
